(** * Credential issuance and verification services

    A shallow embedding of the two Express handlers ([POST /issue] of
    [backend/issuance-service/src/index.ts] and [POST /verify] of the
    verification service) and of the [Storage] class of
    [backend/issuance-service/src/storage.ts].

    - JavaScript values are an inductive type [value]; numbers are IEEE-754
      doubles ([PrimFloat.float]), objects are association lists in property
      order.
    - The [credentials] table of [credentials.db] is a finite map from the
      [id] column to the [data] column (both TEXT).  The column [created_at]
      is filled by the engine and selected by no statement of the program; it
      is left out.
    - Handlers run in a state-and-exception monad over [World].  Every
      [await] on the storage layer ends a segment; a handler is a task that
      advances one segment per step, so that requests can be interleaved.
    - The logger is modelled as far as a handler depends on it: a template
      literal handed to it converts its values to strings, which can throw.
    - Opening the database file, the CREATE TABLE of [init] and the SELECT
      of [list] can fail, as an [Engine] says.  The statements that bind an
      id fail by the constraints of the table only.  The HTTP middleware is
      not modelled. *)

From Stdlib Require Import PrimFloat FloatOps SpecFloat Uint63.
From Stdlib Require Import Ascii.
From stdpp Require Import gmap strings list pretty.

Open Scope string_scope.
Set Warnings "-register-all".

(** ** JavaScript values *)

Inductive value : Type :=
| VUndefined
| VNull
| VBool (b : bool)
| VNum (n : float)
| VStr (s : string)
| VArr (items : list value)
| VObj (props : list (string * value)).

(** [typeof v] *)
Definition typeof (v : value) : string :=
  match v with
  | VUndefined => "undefined"
  | VNull => "object"
  | VBool _ => "boolean"
  | VNum _ => "number"
  | VStr _ => "string"
  | VArr _ => "object"
  | VObj _ => "object"
  end.

(** ToBoolean: [undefined], [null], [false], [+0], [-0], [NaN] and the empty
    string are falsy; everything else, every object and array included, is
    truthy. *)
Definition truthy (v : value) : bool :=
  match v with
  | VUndefined => false
  | VNull => false
  | VBool b => b
  | VNum n => negb (PrimFloat.is_zero n || PrimFloat.is_nan n)
  | VStr s => negb (String.eqb s EmptyString)
  | VArr _ => true
  | VObj _ => true
  end.

(** [!v] *)
Definition js_not (v : value) : bool := negb (truthy v).

(** The own enumerable string-keyed properties of a value, in property
    order: the fields of an object, the indices of an array, the indices of
    a string; other primitives have none. *)
Definition index_props {A} (f : A → value) (l : list A) : list (string * value) :=
  imap (λ i x, (pretty i, f x)) l.

Definition own_props (v : value) : list (string * value) :=
  match v with
  | VObj props => props
  | VArr items => index_props id items
  | VStr s => index_props (λ c, VStr (String c EmptyString)) (String.list_ascii_of_string s)
  | _ => []
  end.

Fixpoint assoc (k : string) (props : list (string * value)) : option value :=
  match props with
  | [] => None
  | (k', v) :: rest => if String.eqb k k' then Some v else assoc k rest
  end.

(** [{ ...props, k: v }]: an existing property keeps its place and takes the
    new value, a new one is added last. *)
Fixpoint assign (k : string) (v : value) (props : list (string * value))
  : list (string * value) :=
  match props with
  | [] => [(k, v)]
  | (k', v') :: rest =>
      if String.eqb k k' then (k, v) :: rest else (k', v') :: assign k v rest
  end.

(** Exceptions carry their message. *)
Inductive Result (A : Type) : Type :=
| Ok (a : A)
| Throw (message : string).
Arguments Ok {A} a.
Arguments Throw {A} message.

(** [v.k] for a property name [k] that is not inherited ([id], [worker],
    [timestamp], [credential] are the names the handlers read): the own
    property or [undefined]; reading a property of [null] or [undefined]
    throws a TypeError. *)
Definition get_prop (v : value) (k : string) : Result value :=
  match v with
  | VUndefined => Throw ("Cannot read properties of undefined (reading '" ++ k ++ "')")
  | VNull => Throw ("Cannot read properties of null (reading '" ++ k ++ "')")
  | _ => Ok (default VUndefined (assoc k (own_props v)))
  end.

(** ** The runtime the services are started in

    What the handlers take from their environment: the worker name fixed at
    start-up ([process.env.WORKER_ID] or a generated one), the random UUIDs,
    the clock, the JSON codec of the JavaScript engine, the text of a number
    ([Number.prototype.toString]), and the text that the database driver binds
    for an id that is not a string (SQLite compares and stores the column
    [id] with TEXT affinity).  [uuidv4 n] and [toISOString n] are the results
    of the [n]-th call of [uuidv4()] and of [new Date().toISOString()];
    [JSON_stringify] is the text of a value other than [undefined];
    [JSON_parse] is [None] where [JSON.parse] throws a SyntaxError. *)
Record Runtime := {
  WORKER_ID : string;
  uuidv4 : nat → string;
  toISOString : nat → string;
  JSON_stringify : value → string;
  JSON_parse : string → option value;
  bind_text : value → string;
  Number_toString : float → string
}.

(** [JSON.stringify(v)]: [undefined] (here [None]) for [undefined]. *)
Definition JSON_stringify_any (rt : Runtime) (v : value) : option string :=
  match v with
  | VUndefined => None
  | _ => Some (JSON_stringify rt v)
  end.

(** ToString, as a template literal applies it to a value that came out of
    [JSON.parse].  An array is joined with commas, [null] and [undefined]
    elements counting as empty.  An object is converted through its
    [toString], then its [valueOf]: an own property [toString] (whose value
    is never a function) hides [Object.prototype.toString], and what
    [valueOf] returns is an object again, so the conversion throws a
    TypeError; without such a property the text is [[object Object]]. *)
Fixpoint ToString (rt : Runtime) (v : value) : Result string :=
  match v with
  | VUndefined => Ok "undefined"
  | VNull => Ok "null"
  | VBool true => Ok "true"
  | VBool false => Ok "false"
  | VNum n => Ok (Number_toString rt n)
  | VStr s => Ok s
  | VArr items =>
      (fix join_items (l : list value) : Result string :=
         match l with
         | [] => Ok EmptyString
         | x :: rest =>
             match (match x with
                    | VUndefined | VNull => Ok EmptyString
                    | _ => ToString rt x
                    end) with
             | Throw e => Throw e
             | Ok first =>
                 match rest with
                 | [] => Ok first
                 | _ :: _ =>
                     match join_items rest with
                     | Throw e => Throw e
                     | Ok others => Ok (first ++ "," ++ others)
                     end
                 end
             end
         end) items
  | VObj props =>
      match assoc "toString" props with
      | Some _ => Throw "Cannot convert object to primitive value"
      | None => Ok "[object Object]"
      end
  end.

(** ** The world: database file, storage handles, random and clock draws *)

Inductive Service := Issuance | Verification.

(** The statements of [storage.ts]. *)
Inductive Sql :=
| CreateTable
| InsertCredential (id data : string)
| InsertCredentialNull (id : string)
| SelectAllIds
| SelectId (id : string)
| SelectData (id : string).

(** [credentials] is the table of the shared [credentials.db]; [statements]
    records every statement sent to the engine, oldest first; [issuance_db]
    and [verification_db] say whether [this.db] of the [storage] singleton of
    each process is set. *)
Record World := {
  credentials : gmap string string;
  statements : list Sql;
  issuance_db : bool;
  verification_db : bool;
  uuid_draws : nat;
  clock_reads : nat
}.

Definition with_credentials (t : gmap string string) (w : World) : World :=
  {| credentials := t; statements := statements w;
     issuance_db := issuance_db w; verification_db := verification_db w;
     uuid_draws := uuid_draws w; clock_reads := clock_reads w |}.

Definition with_statements (l : list Sql) (w : World) : World :=
  {| credentials := credentials w; statements := l;
     issuance_db := issuance_db w; verification_db := verification_db w;
     uuid_draws := uuid_draws w; clock_reads := clock_reads w |}.

Definition db (this : Service) (w : World) : bool :=
  match this with
  | Issuance => issuance_db w
  | Verification => verification_db w
  end.

Definition with_db (this : Service) (w : World) : World :=
  {| credentials := credentials w; statements := statements w;
     issuance_db := match this with Issuance => true | _ => issuance_db w end;
     verification_db := match this with Verification => true | _ => verification_db w end;
     uuid_draws := uuid_draws w; clock_reads := clock_reads w |}.

(** ** State and exceptions *)

Definition M (A : Type) : Type := World → World * Result A.

Definition ret {A} (a : A) : M A := λ w, (w, Ok a).

Definition bind {A B} (m : M A) (k : A → M B) : M B :=
  λ w, match m w with
       | (w', Ok a) => k a w'
       | (w', Throw e) => (w', Throw e)
       end.

Definition throw {A} (e : string) : M A := λ w, (w, Throw e).

Definition lift {A} (r : Result A) : M A := λ w, (w, r).

Notation "'let*' x := m 'in' k" := (bind m (λ x, k))
  (at level 10, x name, m at level 100, k at level 200).

(** [uuidv4()] *)
Definition draw_uuid (rt : Runtime) : M string :=
  λ w, ({| credentials := credentials w; statements := statements w;
           issuance_db := issuance_db w; verification_db := verification_db w;
           uuid_draws := S (uuid_draws w); clock_reads := clock_reads w |},
        Ok (uuidv4 rt (uuid_draws w))).

(** [new Date().toISOString()] *)
Definition now (rt : Runtime) : M string :=
  λ w, ({| credentials := credentials w; statements := statements w;
           issuance_db := issuance_db w; verification_db := verification_db w;
           uuid_draws := uuid_draws w; clock_reads := S (clock_reads w) |},
        Ok (toISOString rt (clock_reads w))).

(** ** The database engine *)

Definition sent (q : Sql) (w : World) : World :=
  with_statements (statements w ++ [q]) w.

(** [CREATE TABLE IF NOT EXISTS credentials (id TEXT PRIMARY KEY, ...)]: the
    rows of an existing table stay. *)
Definition sql_create_table : M unit := λ w, (sent CreateTable w, Ok tt).

(** [INSERT INTO credentials (id, data) VALUES (?, ?)]: a [data] that is
    [undefined] is left unbound, that is NULL, which the column rejects
    ([data TEXT NOT NULL]); the primary key rejects a second row with the
    same [id]; a statement that fails leaves the table as before. *)
Definition sql_insert (id : string) (data : option string) : M unit :=
  λ w, match data with
       | None =>
           (sent (InsertCredentialNull id) w,
            Throw "SQLITE_CONSTRAINT: NOT NULL constraint failed: credentials.data")
       | Some text =>
           let w' := sent (InsertCredential id text) w in
           match credentials w !! id with
           | Some _ =>
               (w', Throw "SQLITE_CONSTRAINT: UNIQUE constraint failed: credentials.id")
           | None => (with_credentials (<[id := text]> (credentials w)) w', Ok tt)
           end
       end.

(** [SELECT id FROM credentials] *)
Definition sql_select_all_ids : M (list string) :=
  λ w, (sent SelectAllIds w, Ok ((map_to_list (credentials w)).*1)).

(** [SELECT id FROM credentials WHERE id = ?]: the row, if any. *)
Definition sql_select_id (id : string) : M (option string) :=
  λ w, (sent (SelectId id) w, Ok ((λ _, id) <$> credentials w !! id)).

(** [SELECT data FROM credentials WHERE id = ?] *)
Definition sql_select_data (id : string) : M (option string) :=
  λ w, (sent (SelectData id) w, Ok (credentials w !! id)).

(** What the calls that bind no parameter come to on the machine at hand:
    opening the database file, executing the CREATE TABLE of [init], and
    reading all ids.  [None]: the call succeeds; [Some message]: it throws an
    error with that message (a directory that cannot be written, a file that
    is not a database, a disk error). *)
Record Engine := {
  open_error : option string;
  exec_error : option string;
  all_error : option string
}.

(** The engine on which every call succeeds. *)
Definition healthy : Engine :=
  {| open_error := None; exec_error := None; all_error := None |}.

(** ** [class Storage] *)

(** The text SQLite sees for a bound id: a string as it is, any other value
    through the driver. *)
Definition sql_id (rt : Runtime) (v : value) : string :=
  match v with
  | VStr s => s
  | _ => bind_text rt v
  end.

Section Storage.
Variable rt : Runtime.

(** A template literal with [${v}] in it, handed to the logger. *)
Definition template (v : value) : M string := lift (ToString rt v).

(** The [catch] block of [save], [exists] and [get]:
    [logger.error(`Failed to ... ${id}: ${error.message}`); throw error;] *)
Definition logged_rethrow {A} (id : value) (m : M A) : M A :=
  λ w, match m w with
       | (w', Ok a) => (w', Ok a)
       | (w', Throw e) =>
           match ToString rt id with
           | Ok _ => (w', Throw e)
           | Throw e' => (w', Throw e')
           end
       end.

(** [init()]: opens the database file, keeps the handle in [this.db], and
    creates the table when it is missing.  An error of [open] leaves
    [this.db] as it was; an error of [exec] comes after the handle is set.
    Either is logged with its message and thrown again. *)
Definition Storage_init (engine : Engine) (this : Service) : M unit :=
  λ w, match open_error engine with
       | Some message => (w, Throw message)
       | None =>
           match exec_error engine with
           | Some message => (sent CreateTable (with_db this w), Throw message)
           | None => sql_create_table (with_db this w)
           end
       end.

(** [if (!this.db) await this.init();] in a method called by a handler.  The
    server listens only once the [init] of start-up has returned, and then
    [this.db] is set: a request meets an open handle.  For a world without
    one, the file opens. *)
Definition ensure_db (this : Service) : M unit :=
  λ w, if db this w then (w, Ok tt) else Storage_init healthy this w.

(** [save(id, data)], with [id] the value the caller passes, whatever its
    type (the handlers pass truthy ids only; [null] and [undefined], which
    bind as NULL, are outside the model): the error of a failed INSERT is
    logged and thrown again. *)
Definition Storage_save (this : Service) (id : value) (data : value) : M unit :=
  let* _ := ensure_db this in
  logged_rethrow id (sql_insert (sql_id rt id) (JSON_stringify_any rt data)).

(** [list()]: the ids of all rows; an error of [db.all] is logged with its
    message and thrown again. *)
Definition Storage_list (engine : Engine) (this : Service) : M (list string) :=
  let* _ := ensure_db this in
  match all_error engine with
  | Some message => λ w, (sent SelectAllIds w, Throw message)
  | None => sql_select_all_ids
  end.

(** [exists(id)]: [!!result] *)
Definition Storage_exists (this : Service) (id : value) : M bool :=
  let* _ := ensure_db this in
  logged_rethrow id
    (let* result := sql_select_id (sql_id rt id) in
     ret (match result with Some _ => true | None => false end)).

(** [get(id)]: the parsed [data] of the row, [null] when there is no row;
    both outcomes are logged with the id before they are returned; an
    exception (the TypeError of the log line, the SyntaxError of
    [JSON.parse]) is logged and thrown again. *)
Definition Storage_get (this : Service) (id : value) : M value :=
  let* _ := ensure_db this in
  logged_rethrow id
    (let* result := sql_select_data (sql_id rt id) in
     match result with
     | Some data =>
         let* _ := template id in
         match JSON_parse rt data with
         | Some v => ret v
         | None => throw "Unexpected token in JSON"
         end
     | None =>
         let* _ := template id in
         ret VNull
     end).
End Storage.

(** ** The handlers *)

Record Response := { status : nat; body : value }.

(** [res.status(code).json({ message })] *)
Definition message_response (code : nat) (msg : string) : Response :=
  {| status := code; body := VObj [("message", VStr msg)] |}.

(** The object handed to [storage.save]:
    [{ credential: credentialWithId, worker: WORKER_ID, timestamp }] *)
Definition credential_record (rt : Runtime) (credentialWithId : value)
    (timestamp : string) : value :=
  VObj [("credential", credentialWithId);
        ("worker", VStr (WORKER_ID rt));
        ("timestamp", VStr timestamp)].

(** [res.status(201).json({ message, worker, credentialId, timestamp })] *)
Definition issued_response (rt : Runtime) (credentialId : value)
    (timestamp : string) : Response :=
  {| status := 201;
     body := VObj [("message", VStr ("Credential issued by " ++ WORKER_ID rt));
                   ("worker", VStr (WORKER_ID rt));
                   ("credentialId", credentialId);
                   ("timestamp", VStr timestamp)] |}.

(** [res.status(404).json({ status: 'invalid', message: 'Credential not found' })] *)
Definition not_found_response : Response :=
  {| status := 404;
     body := VObj [("status", VStr "invalid");
                   ("message", VStr "Credential not found")] |}.

(** [res.json({ status: 'valid', worker, timestamp, credential })] *)
Definition valid_response (worker timestamp credential : value) : Response :=
  {| status := 200;
     body := VObj [("status", VStr "valid");
                   ("worker", worker);
                   ("timestamp", timestamp);
                   ("credential", credential)] |}.

(** The [catch] block of both handlers: any exception becomes a 500. *)
Definition try_catch {A} (m : M (Response + A)) : World → World * (Response + A) :=
  λ w, match m w with
       | (w', Ok r) => (w', r)
       | (w', Throw _) => (w', inl (message_response 500 "Internal server error"))
       end.

Section Handlers.
Variable rt : Runtime.

(** *** [POST /issue] *)

(** From the request to [await storage.exists(credentialId)]. *)
Definition issue_begin (credential : value) : M (Response + value * value) :=
  if js_not credential || negb (String.eqb (typeof credential) "object") then
    ret (inl (message_response 400 "Invalid credential format"))
  else
    let* supplied := lift (get_prop credential "id") in
    let* credentialId :=
      (if truthy supplied then ret supplied
       else let* fresh := draw_uuid rt in ret (VStr fresh)) in
    let credentialWithId := VObj (assign "id" credentialId (own_props credential)) in
    ret (inr (credentialId, credentialWithId)).

(** The SELECT of [exists] completes; then either the log line
    [`Credential ${credentialId} already issued`] and the 409, or up to
    [await storage.save(...)], whose argument reads the clock. *)
Definition issue_check (credentialId credentialWithId : value)
  : M (Response + value * value) :=
  let* exists_ := Storage_exists rt Issuance credentialId in
  if (exists_ : bool) then
    let* _ := template rt credentialId in
    ret (inl (message_response 409 "Credential already issued"))
  else
    let* timestamp := now rt in
    ret (inr (credentialId, credential_record rt credentialWithId timestamp)).

(** The INSERT of [save] completes; then the log line
    [`Credential ${credentialId} issued by ${WORKER_ID}`] and the 201
    response, which reads the clock again. *)
Definition issue_store (credentialId record : value) : M (Response + Empty_set) :=
  let* _ := Storage_save rt Issuance credentialId record in
  let* _ := template rt credentialId in
  let* timestamp := now rt in
  ret (inl (issued_response rt credentialId timestamp)).

Inductive IssueTask :=
| IssueReceived (credential : value)
| IssueAwaitExists (credentialId credentialWithId : value)
| IssueAwaitSave (credentialId record : value)
| IssueResponded (res : Response).

(** One segment of a [POST /issue] request. *)
Definition issue_step (t : IssueTask) (w : World) : World * IssueTask :=
  match t with
  | IssueReceived credential =>
      match try_catch (issue_begin credential) w with
      | (w', inl res) => (w', IssueResponded res)
      | (w', inr (credentialId, credentialWithId)) =>
          (w', IssueAwaitExists credentialId credentialWithId)
      end
  | IssueAwaitExists credentialId credentialWithId =>
      match try_catch (issue_check credentialId credentialWithId) w with
      | (w', inl res) => (w', IssueResponded res)
      | (w', inr (credentialId', record)) => (w', IssueAwaitSave credentialId' record)
      end
  | IssueAwaitSave credentialId record =>
      match try_catch (issue_store credentialId record) w with
      | (w', inl res) => (w', IssueResponded res)
      | (w', inr absurd) => match absurd with end
      end
  | IssueResponded res => (w, IssueResponded res)
  end.

(** A request handled with no other request in between. *)
Definition POST_issue (credential : value) (w : World) : World * Response :=
  match try_catch (issue_begin credential) w with
  | (w1, inl res) => (w1, res)
  | (w1, inr (credentialId, credentialWithId)) =>
      match try_catch (issue_check credentialId credentialWithId) w1 with
      | (w2, inl res) => (w2, res)
      | (w2, inr (credentialId', record)) =>
          match try_catch (issue_store credentialId' record) w2 with
          | (w3, inl res) => (w3, res)
          | (w3, inr absurd) => match absurd with end
          end
      end
  end.

(** *** [POST /verify] *)

(** From the request to [await storage.get(credentialId)]. *)
Definition verify_begin (credential : value) : M (Response + value) :=
  if js_not credential || negb (String.eqb (typeof credential) "object") then
    ret (inl (message_response 400 "Invalid credential format"))
  else
    let* credentialId := lift (get_prop credential "id") in
    if js_not credentialId then
      ret (inl (message_response 400 "Credential ID is required"))
    else
      ret (inr credentialId).

(** The SELECT of [get] completes; then the log line
    [`Credential ${credentialId} not found`] and the 404, or the log line
    [`Credential ${credentialId} verified successfully`] and the 200. *)
Definition verify_lookup (credentialId : value) : M (Response + Empty_set) :=
  let* credentialData := Storage_get rt Verification credentialId in
  if js_not credentialData then
    let* _ := template rt credentialId in
    ret (inl not_found_response)
  else
    let* _ := template rt credentialId in
    let* worker := lift (get_prop credentialData "worker") in
    let* timestamp := lift (get_prop credentialData "timestamp") in
    let* credential := lift (get_prop credentialData "credential") in
    ret (inl (valid_response worker timestamp credential)).

Inductive VerifyTask :=
| VerifyReceived (credential : value)
| VerifyAwaitGet (credentialId : value)
| VerifyResponded (res : Response).

(** One segment of a [POST /verify] request. *)
Definition verify_step (t : VerifyTask) (w : World) : World * VerifyTask :=
  match t with
  | VerifyReceived credential =>
      match try_catch (verify_begin credential) w with
      | (w', inl res) => (w', VerifyResponded res)
      | (w', inr credentialId) => (w', VerifyAwaitGet credentialId)
      end
  | VerifyAwaitGet credentialId =>
      match try_catch (verify_lookup credentialId) w with
      | (w', inl res) => (w', VerifyResponded res)
      | (w', inr absurd) => match absurd with end
      end
  | VerifyResponded res => (w, VerifyResponded res)
  end.

(** A request handled with no other request in between. *)
Definition POST_verify (credential : value) (w : World) : World * Response :=
  match try_catch (verify_begin credential) w with
  | (w1, inl res) => (w1, res)
  | (w1, inr credentialId) =>
      match try_catch (verify_lookup credentialId) w1 with
      | (w2, inl res) => (w2, res)
      | (w2, inr absurd) => match absurd with end
      end
  end.
End Handlers.

(** ** Requests one after the other, and two requests interleaved *)

(** [POST /issue] requests handled one after the other. *)
Fixpoint issue_all (rt : Runtime) (requests : list value) (w : World)
  : World * list Response :=
  match requests with
  | [] => (w, [])
  | credential :: rest =>
      let '(w1, res) := POST_issue rt credential w in
      let '(w2, ress) := issue_all rt rest w1 in
      (w2, res :: ress)
  end.

(** Two [POST /issue] requests in flight at once.  The event loop resumes
    one of them at a time; a schedule names which. *)
Inductive Turn := First | Second.

#[global] Instance Turn_eq_dec : EqDecision Turn.
Proof. solve_decision. Defined.

Fixpoint interleave (rt : Runtime) (schedule : list Turn)
    (w : World) (a b : IssueTask) : World * IssueTask * IssueTask :=
  match schedule with
  | [] => (w, a, b)
  | First :: rest =>
      let '(w', a') := issue_step rt a w in interleave rt rest w' a' b
  | Second :: rest =>
      let '(w', b') := issue_step rt b w in interleave rt rest w' a b'
  end.

Definition turns (t : Turn) (schedule : list Turn) : nat :=
  length (filter (λ t', t' = t) schedule).

Definition responded (t : IssueTask) : option Response :=
  match t with
  | IssueResponded res => Some res
  | _ => None
  end.

(** ** The vocabulary of the statements *)

(** The statements [ensure_db] sends: the CREATE TABLE of [init] when the
    handle is not open yet. *)
Definition opening (this : Service) (w : World) : list Sql :=
  if db this w then [] else [CreateTable].

(** What the guard of both handlers lets through: objects and arrays. *)
Definition accepted (credential : value) : Prop :=
  match credential with
  | VObj _ | VArr _ => True
  | _ => False
  end.

#[global] Instance accepted_dec credential : Decision (accepted credential).
Proof. destruct credential; simpl; apply _. Defined.

(** [credential.id] of a request that passed the guard. *)
Definition supplied_id (credential : value) : value :=
  default VUndefined (assoc "id" (own_props credential)).

(** [credential.id || uuidv4()] in the world [w]. *)
Definition resolved_id (rt : Runtime) (credential : value) (w : World) : value :=
  if truthy (supplied_id credential) then supplied_id credential
  else VStr (uuidv4 rt (uuid_draws w)).

(** A request that carries the id [v]. *)
Definition carries (v : value) (credential : value) : Prop :=
  ∃ props, credential = VObj props ∧ assoc "id" props = Some v.

(** The response is the 201. *)
Definition succeeded (res : Response) : bool := Nat.eqb (status res) 201.

(** An id that a template literal can convert to a string. *)
Definition printable (rt : Runtime) (v : value) : Prop :=
  ∃ text, ToString rt v = Ok text.

(** The answer of a handler that logs a line with [${id}] in it before it
    sends [res]: the 500 of its [catch] block when the conversion of [id]
    throws. *)
Definition logged (rt : Runtime) (id : value) (res : Response) : Response :=
  match ToString rt id with
  | Ok _ => res
  | Throw _ => message_response 500 "Internal server error"
  end.

(** [record.k] of a value that passed [!record]. *)
Definition field (record : value) (k : string) : value :=
  default VUndefined (assoc k (own_props record)).

(** The answer of [POST /verify] for the text of a row. *)
Definition verdict (rt : Runtime) (row : option string) : Response :=
  match row with
  | None => not_found_response
  | Some data =>
      match JSON_parse rt data with
      | None => message_response 500 "Internal server error"
      | Some record =>
          if truthy record then
            valid_response (field record "worker") (field record "timestamp")
              (field record "credential")
          else not_found_response
      end
  end.


(** How far a task has come. *)
Definition phase (t : IssueTask) : nat :=
  match t with
  | IssueReceived _ => 0
  | IssueAwaitExists _ _ => 1
  | IssueAwaitSave _ _ => 2
  | IssueResponded _ => 3
  end.

(** A task of a request for the id [v]. *)
Definition task_for (v : value) (t : IssueTask) : Prop :=
  match t with
  | IssueReceived credential => carries v credential
  | IssueAwaitExists credentialId _ => credentialId = v
  | IssueAwaitSave credentialId record => credentialId = v ∧ record ≠ VUndefined
  | IssueResponded _ => True
  end.

(** Answered by the 201 for [v]. *)
Definition won (rt : Runtime) (v : value) (t : IssueTask) : Prop :=
  ∃ timestamp, t = IssueResponded (issued_response rt v timestamp).

(** Not answered yet, or turned down: by the 409 of the [exists] check or by
    the 500 into which the [catch] block turns the failed INSERT. *)
Definition not_won (t : IssueTask) : Prop :=
  match t with
  | IssueResponded res =>
      res = message_response 409 "Credential already issued"
      ∨ res = message_response 500 "Internal server error"
  | _ => True
  end.

(** What holds of two tasks for [v] at every point of every schedule: as
    long as there is no row for [v] neither has responded; once there is
    one, one task has won and the other has not. *)
Definition race_invariant (rt : Runtime) (v : value) (w : World) (a b : IssueTask)
  : Prop :=
  task_for v a ∧ task_for v b
  ∧ match credentials w !! sql_id rt v with
    | None => responded a = None ∧ responded b = None
    | Some _ => (won rt v a ∧ not_won b) ∨ (won rt v b ∧ not_won a)
    end.

(** ** A runtime to run the model on

    A JSON codec for the values whose numbers are integers below 2^53 and
    whose strings need no escape other than of the quote and the backslash,
    and a runtime built on it. *)
Module Reference.

Definition integer_of (n : float) : option Z :=
  match Prim2SF n with
  | S754_zero _ => Some 0%Z
  | S754_finite s m e =>
      let sign := if s then (-1)%Z else 1%Z in
      if (0 <=? e)%Z then Some (sign * Z.pos m * 2 ^ e)%Z
      else if (Z.pos m mod 2 ^ (- e) =? 0)%Z then Some (sign * (Z.pos m / 2 ^ (- e)))%Z
      else None
  | _ => None
  end.

Definition number_of (z : Z) : float :=
  if (z <? 0)%Z then PrimFloat.opp (PrimFloat.of_uint63 (Uint63.of_Z (- z)))
  else PrimFloat.of_uint63 (Uint63.of_Z z).

Definition dquote : ascii := Ascii.ascii_of_nat 34.

Fixpoint escape (s : string) : string :=
  match s with
  | EmptyString => EmptyString
  | String c rest =>
      if Ascii.eqb c dquote then String "\"%char (String c (escape rest))
      else if Ascii.eqb c "\"%char then String "\"%char (String c (escape rest))
      else String c (escape rest)
  end.

Definition quote (s : string) : string :=
  String dquote (escape s ++ String dquote EmptyString).

Fixpoint join (l : list string) : string :=
  match l with
  | [] => EmptyString
  | [x] => x
  | x :: rest => x ++ "," ++ join rest
  end.

(** Inside an array [undefined] is written [null]; inside an object a
    property whose value is [undefined] is left out. *)
Fixpoint stringify (v : value) : string :=
  match v with
  | VUndefined => "null"
  | VNull => "null"
  | VBool true => "true"
  | VBool false => "false"
  | VNum n => match integer_of n with Some z => pretty z | None => "null" end
  | VStr s => quote s
  | VArr items => "[" ++ join (map stringify items) ++ "]"
  | VObj props =>
      "{" ++ join ((fix members (l : list (string * value)) : list string :=
                      match l with
                      | [] => []
                      | (_, VUndefined) :: rest => members rest
                      | (k, x) :: rest => (quote k ++ ":" ++ stringify x) :: members rest
                      end) props) ++ "}"
  end.

Definition is_digit (c : ascii) : bool :=
  let n := Ascii.nat_of_ascii c in (48 <=? n)%nat && (n <=? 57)%nat.

Fixpoint read_digits (acc : Z) (s : list ascii) : Z * list ascii :=
  match s with
  | c :: rest =>
      if is_digit c
      then read_digits (10 * acc + Z.of_nat (Ascii.nat_of_ascii c - 48))%Z rest
      else (acc, s)
  | [] => (acc, [])
  end.

(** The characters of a string literal after its opening quote. *)
Fixpoint read_string (s : list ascii) : option (string * list ascii) :=
  match s with
  | [] => None
  | c :: rest =>
      if Ascii.eqb c dquote then Some (EmptyString, rest)
      else if Ascii.eqb c "\"%char then
        match rest with
        | c' :: rest' =>
            match read_string rest' with
            | Some (str, tail) => Some (String c' str, tail)
            | None => None
            end
        | [] => None
        end
      else
        match read_string rest with
        | Some (str, tail) => Some (String c str, tail)
        | None => None
        end
  end.

Fixpoint read_value (fuel : nat) (s : list ascii) : option (value * list ascii) :=
  match fuel with
  | 0 => None
  | S fuel' =>
      match s with
      | "n"%char :: "u"%char :: "l"%char :: "l"%char :: rest => Some (VNull, rest)
      | "t"%char :: "r"%char :: "u"%char :: "e"%char :: rest => Some (VBool true, rest)
      | "f"%char :: "a"%char :: "l"%char :: "s"%char :: "e"%char :: rest =>
          Some (VBool false, rest)
      | "["%char :: "]"%char :: rest => Some (VArr [], rest)
      | "["%char :: rest =>
          match read_items fuel' rest with
          | Some (items, tail) => Some (VArr items, tail)
          | None => None
          end
      | "{"%char :: "}"%char :: rest => Some (VObj [], rest)
      | "{"%char :: rest =>
          match read_members fuel' rest with
          | Some (props, tail) => Some (VObj props, tail)
          | None => None
          end
      | "-"%char :: c :: rest =>
          if is_digit c then
            let '(z, tail) := read_digits 0 (c :: rest) in Some (VNum (number_of (- z)), tail)
          else None
      | c :: rest =>
          if Ascii.eqb c dquote then
            match read_string rest with
            | Some (str, tail) => Some (VStr str, tail)
            | None => None
            end
          else if is_digit c then
            let '(z, tail) := read_digits 0 s in Some (VNum (number_of z), tail)
          else None
      | [] => None
      end
  end
with read_items (fuel : nat) (s : list ascii) : option (list value * list ascii) :=
  match fuel with
  | 0 => None
  | S fuel' =>
      match read_value fuel' s with
      | Some (v, ","%char :: rest) =>
          match read_items fuel' rest with
          | Some (items, tail) => Some (v :: items, tail)
          | None => None
          end
      | Some (v, "]"%char :: rest) => Some ([v], rest)
      | _ => None
      end
  end
with read_members (fuel : nat) (s : list ascii)
  : option (list (string * value) * list ascii) :=
  match fuel with
  | 0 => None
  | S fuel' =>
      match s with
      | c :: rest =>
          if Ascii.eqb c dquote then
            match read_string rest with
            | Some (k, ":"%char :: rest') =>
                match read_value fuel' rest' with
                | Some (v, ","%char :: rest'') =>
                    match read_members fuel' rest'' with
                    | Some (props, tail) => Some ((k, v) :: props, tail)
                    | None => None
                    end
                | Some (v, "}"%char :: rest'') => Some ([(k, v)], rest'')
                | _ => None
                end
            | _ => None
            end
          else None
      | [] => None
      end
  end.

Definition parse (text : string) : option value :=
  let s := String.list_ascii_of_string text in
  match read_value (2 * length s + 2) s with
  | Some (v, []) => Some v
  | _ => None
  end.

(** What the driver binds for an id that is not a string: a number as its
    decimal text, a boolean as 1 or 0, an object through [String(...)]. *)
Definition driver_text (v : value) : string :=
  match v with
  | VBool true => "1"
  | VBool false => "0"
  | VObj _ => "[object Object]"
  | VArr items => join (map stringify items)
  | _ => stringify v
  end.

(** The text of a number that is an integer. *)
Definition number_text (n : float) : string :=
  match integer_of n with
  | Some z => pretty z
  | None => "NaN"
  end.

Definition runtime : Runtime := {|
  WORKER_ID := "worker-1";
  uuidv4 := λ n, "00000000-0000-4000-8000-" ++ pretty n;
  toISOString := λ n, "2025-10-07T08:10:11." ++ pretty n ++ "Z";
  JSON_stringify := stringify;
  JSON_parse := parse;
  bind_text := driver_text;
  Number_toString := number_text
|}.

(** Both services just started on an empty database. *)
Definition started : World := {|
  credentials := ∅;
  statements := [CreateTable; CreateTable];
  issuance_db := true;
  verification_db := true;
  uuid_draws := 0;
  clock_reads := 0
|}.

(** The requests of the examples. *)
Definition jane : value := VObj [("name", VStr "Jane")].

Definition jane_x : value := VObj [("id", VStr "X"); ("name", VStr "Jane")].

End Reference.

(** ** The rest of the services: diagnostics, start-up, the event loop *)



(** What [app.listen(tryPort)] comes to: the [listening] event, or an error
    (thrown or emitted) with its [code], if it has one. *)
Inductive ListenOutcome :=
| Listening
| ListenError (code : option string).

(** How start-up ends: the server listens on a port, or [process.exit]. *)
Inductive Startup :=
| Started (port : Z)
| Exited (code : Z).

(** The loop [for (let i = 0; i < 10; i++)] of [startWithPortFallback], with
    [remaining] iterations to go from [i] on: EADDRINUSE moves on to the next
    port, any other error exits, and so does the end of the range.  The
    result has the ports on which [app.listen] was called, in order. *)
Fixpoint try_ports (listen : Z → ListenOutcome) (basePort : Z) (i remaining : nat)
  : list Z * Startup :=
  match remaining with
  | 0 => ([], Exited 1)
  | S remaining' =>
      let tryPort := (basePort + Z.of_nat i)%Z in
      match listen tryPort with
      | Listening => ([tryPort], Started tryPort)
      | ListenError code =>
          if bool_decide (code = Some "EADDRINUSE")
          then
            let '(tried, outcome) := try_ports listen basePort (S i) remaining' in
            (tryPort :: tried, outcome)
          else ([tryPort], Exited 1)
      end
  end.

(** [startWithPortFallback(basePort)] for a port that is an integer:
    [await storage.init()], then the loop. *)
Definition startWithPortFallback (engine : Engine) (this : Service)
    (listen : Z → ListenOutcome) (basePort : Z) : M Startup :=
  let* _ := Storage_init engine this in
  ret (try_ports listen basePort 0 10).2.

(** The start-up block of [index.ts]: an exception of
    [startWithPortFallback] exits with code 1. *)
Definition main (engine : Engine) (this : Service) (listen : Z → ListenOutcome)
    (basePort : Z) (w : World) : World * Startup :=
  match startWithPortFallback engine this listen basePort w with
  | (w', Ok outcome) => (w', outcome)
  | (w', Throw _) => (w', Exited 1)
  end.

(** Start-up on a machine where the database file opens. *)
Definition start (this : Service) (listen : Z → ListenOutcome) (basePort : Z)
    (w : World) : World * Startup :=
  main healthy this listen basePort w.

(** The requests in flight in the two services, and the event loop: a
    schedule names the request that is resumed next; a number that names
    none is skipped. *)
Inductive Task :=
| Issuing (t : IssueTask)
| Verifying (t : VerifyTask).

Definition task_step (rt : Runtime) (t : Task) (w : World) : World * Task :=
  match t with
  | Issuing t => let '(w', t') := issue_step rt t w in (w', Issuing t')
  | Verifying t => let '(w', t') := verify_step rt t w in (w', Verifying t')
  end.

Fixpoint serve (rt : Runtime) (schedule : list nat) (w : World) (pool : list Task)
  : World * list Task :=
  match schedule with
  | [] => (w, pool)
  | i :: rest =>
      match pool !! i with
      | Some t =>
          let '(w', t') := task_step rt t w in serve rt rest w' (<[i := t']> pool)
      | None => serve rt rest w pool
      end
  end.

(** The request was answered 201. *)
Definition issued (t : Task) : bool :=
  match t with
  | Issuing (IssueResponded res) => succeeded res
  | _ => false
  end.

(** The id a request to [POST /issue] is handled under, as far as it is
    known: the supplied one before the handler has resolved it. *)
Definition task_id (t : IssueTask) : value :=
  match t with
  | IssueReceived credential => supplied_id credential
  | IssueAwaitExists credentialId _ => credentialId
  | IssueAwaitSave credentialId _ => credentialId
  | IssueResponded _ => VUndefined
  end.

(** A request whose id, if it is one to [POST /issue], converts to a
    string. *)
Definition issues_printable (rt : Runtime) (t : Task) : Prop :=
  match t with
  | Issuing t => printable rt (task_id t)
  | Verifying _ => True
  end.

(** A row as [POST /issue] writes it: the serialised record of an object
    whose [id] is the id the row is stored under. *)
Definition issued_row (rt : Runtime) (key data : string) : Prop :=
  ∃ props credentialId timestamp,
    data = JSON_stringify rt (credential_record rt (VObj props) timestamp)
    ∧ assoc "id" props = Some credentialId
    ∧ sql_id rt credentialId = key.

(** A request in flight holds what [POST /issue] computed for it: the
    payload with the resolved id, then the record of that payload. *)
Definition task_sound (rt : Runtime) (t : Task) : Prop :=
  match t with
  | Issuing (IssueAwaitExists credentialId doc) =>
      ∃ props, doc = VObj props ∧ assoc "id" props = Some credentialId
  | Issuing (IssueAwaitSave credentialId record) =>
      ∃ props timestamp,
        record = credential_record rt (VObj props) timestamp
        ∧ assoc "id" props = Some credentialId
  | _ => True
  end.

(** One request to issue [props] under the id [v] and one to verify [v], at
    any point of any schedule: until the INSERT there is no row and the
    issuance has not responded; from the INSERT on the row is the text of
    [record]; a verification that has responded said not found or answered
    with [record]. *)
Definition visibility_invariant (rt : Runtime) (v : value)
    (props : list (string * value)) (clock : nat) (w : World)
    (ti : IssueTask) (tv : VerifyTask) : Prop :=
  let doc := VObj (assign "id" v props) in
  let record := credential_record rt doc (toISOString rt clock) in
  let row := credentials w !! sql_id rt v in
  match ti with
  | IssueReceived credential =>
      credential = VObj props ∧ row = None ∧ clock_reads w = clock
  | IssueAwaitExists credentialId credentialWithId =>
      credentialId = v ∧ credentialWithId = doc ∧ row = None ∧ clock_reads w = clock
  | IssueAwaitSave credentialId record' =>
      credentialId = v ∧ record' = record ∧ row = None
  | IssueResponded _ => row = Some (JSON_stringify rt record)
  end
  ∧ match tv with
    | VerifyReceived credential => carries v credential
    | VerifyAwaitGet credentialId => credentialId = v
    | VerifyResponded res =>
        res = not_found_response
        ∨ res = valid_response (VStr (WORKER_ID rt)) (VStr (toISOString rt clock)) doc
    end.

(** ** The scripts [scripts/insert-cred.cjs] and [scripts/insert-cred.js]

    Each is a process of its own with its own connection to
    [credentials.db]; [statements] keeps the statements of the two services. *)

(** [arg || fallback] for a string that may be missing. *)
Definition or_else (arg : option string) (fallback : string) : string :=
  match arg with
  | Some s => if String.eqb s EmptyString then fallback else s
  | None => fallback
  end.

(** [{ credential: { id, name, role, department, issueDate }, worker, timestamp }] *)
Definition manual_payload (id worker timestamp : string) : value :=
  VObj [("credential",
         VObj [("id", VStr id);
               ("name", VStr "John Doe");
               ("role", VStr "Senior Developer");
               ("department", VStr "Engineering");
               ("issueDate", VStr "2025-10-07T08:10:11.611Z")]);
        ("worker", VStr worker);
        ("timestamp", VStr timestamp)].

(** [INSERT OR REPLACE INTO credentials (id, data) VALUES (?, ?)]: a row with
    the same [id] is replaced. *)
Definition sql_insert_or_replace (id data : string) (w : World) : World :=
  with_credentials (<[id := data]> (credentials w)) w.

(** [node insert-cred.cjs [id [worker]]], with [process.env.WORKER]. *)
Definition insert_cred_cjs (rt : Runtime) (argv2 argv3 env_WORKER : option string)
    (w : World) : World :=
  let id := or_else argv2 "CRED-9123450" in
  let worker := or_else argv3 (or_else env_WORKER "manual-insert") in
  match now rt w with
  | (w', Ok timestamp) =>
      sql_insert_or_replace id
        (JSON_stringify rt (manual_payload id worker timestamp)) w'
  | (w', Throw _) => w'
  end.

(** [node insert-cred.js] *)
Definition insert_cred_js (rt : Runtime) (w : World) : World :=
  match now rt w with
  | (w', Ok timestamp) =>
      sql_insert_or_replace "CRED-9123450"
        (JSON_stringify rt
           (manual_payload "CRED-9123450" "manual-insert" timestamp)) w'
  | (w', Throw _) => w'
  end.

(** * Properties *)

(** ** Property lists *)

Lemma assoc_assign_eq k v props : assoc k (assign k v props) = Some v.
Proof.
  induction props as [|[k' v'] rest IH]; simpl.
  - by rewrite String.eqb_refl.
  - destruct (String.eqb k k') eqn:E; simpl; by rewrite ?String.eqb_refl, ?E.
Qed.

Lemma assoc_assign_ne k k' v props :
  k' ≠ k → assoc k' (assign k v props) = assoc k' props.
Proof.
  intros Hne. induction props as [|[k0 v0] rest IH]; simpl.
  - destruct (String.eqb k' k) eqn:E; [|done]. by apply String.eqb_eq in E.
  - destruct (String.eqb k k0) eqn:E; simpl.
    + apply String.eqb_eq in E as <-.
      destruct (String.eqb k' k) eqn:E'; [|done]. by apply String.eqb_eq in E'.
    + by rewrite IH.
Qed.

(** A decimal numeral is never the name [id]. *)
Lemma pretty_N_go_not_id (x : N) (s : string) :
  s ≠ "id" → pretty_N_go x s ≠ "id".
Proof.
  revert s. induction (N.lt_wf_0 x) as [x _ IH]. intros s Hs.
  destruct (decide (x = 0%N)) as [->|Hx].
  - by rewrite pretty_N_go_0.
  - rewrite pretty_N_go_step by lia.
    apply IH; [apply N.div_lt; lia|].
    unfold pretty_N_char. by repeat case_match.
Qed.

Lemma pretty_nat_not_id (i : nat) : pretty i ≠ "id".
Proof.
  unfold pretty, pretty_nat, pretty, pretty_N.
  case_decide; [done|]. by apply pretty_N_go_not_id.
Qed.

Lemma assoc_index_props_id {A} (f : A → value) (l : list A) :
  assoc "id" (index_props f l) = None.
Proof.
  unfold index_props.
  cut (∀ g : nat → nat, assoc "id" (imap (λ i x, (pretty (g i), f x)) l) = None).
  { intros H. apply (H (λ i, i)). }
  induction l as [|x l IH]; intros g; cbn [imap assoc]; [done|].
  destruct (String.eqb "id" (pretty (g 0))) eqn:E.
  - apply String.eqb_eq in E. by destruct (pretty_nat_not_id (g 0)).
  - apply (IH (g ∘ S)).
Qed.

(** ** The storage layer *)

Ltac run_handler :=
  unfold POST_issue, POST_verify, issue_step, verify_step, try_catch,
    issue_begin, issue_check, issue_store, verify_begin, verify_lookup,
    Storage_exists, Storage_save, Storage_get, Storage_list, ensure_db,
    Storage_init, logged_rethrow, template, sql_create_table, sql_insert,
    sql_select_id, sql_select_data, sql_select_all_ids, bind, ret, lift,
    throw, now, draw_uuid, get_prop; simpl.

Lemma Storage_exists_spec rt this id w :
  ∃ w', Storage_exists rt this id w
        = (w', Ok (match credentials w !! sql_id rt id with
                   | Some _ => true
                   | None => false
                   end))
    ∧ credentials w' = credentials w
    ∧ statements w' = (statements w ++ opening this w ++ [SelectId (sql_id rt id)])%list
    ∧ uuid_draws w' = uuid_draws w ∧ clock_reads w' = clock_reads w.
Proof.
  unfold opening. run_handler.
  destruct (db this w); simpl; eexists;
    (split; [by destruct (credentials w !! sql_id rt id)|]); simpl;
    rewrite <- ?app_assoc; by destruct this.
Qed.

(** [save] sends one INSERT and nothing else; the outcome is decided by the
    data and the table alone. *)
Lemma Storage_save_spec rt this id data w :
  ∃ w' outcome, Storage_save rt this id data w = (w', outcome)
    ∧ uuid_draws w' = uuid_draws w ∧ clock_reads w' = clock_reads w
    ∧ db this w' = true
    ∧ match JSON_stringify_any rt data with
      | None =>
          (∃ e, outcome = Throw e) ∧ credentials w' = credentials w
          ∧ statements w'
            = (statements w ++ opening this w
                 ++ [InsertCredentialNull (sql_id rt id)])%list
      | Some text =>
          statements w'
          = (statements w ++ opening this w
               ++ [InsertCredential (sql_id rt id) text])%list
          ∧ match credentials w !! sql_id rt id with
            | Some _ => (∃ e, outcome = Throw e) ∧ credentials w' = credentials w
            | None => outcome = Ok tt
                      ∧ credentials w' = <[sql_id rt id := text]> (credentials w)
            end
      end.
Proof.
  unfold opening. run_handler.
  destruct (db this w) eqn:Hdb; simpl;
    destruct (JSON_stringify_any rt data) as [text|]; simpl;
    try destruct (credentials w !! sql_id rt id) eqn:Hrow; simpl;
    destruct (ToString rt id); simpl;
    do 2 eexists; (split; [reflexivity|]); simpl;
    rewrite <- ?app_assoc; destruct this; simpl in *; eauto 10.
Qed.

Lemma Storage_get_spec rt this id w :
  ∃ w', Storage_get rt this id w
        = (w', match ToString rt id with
               | Throw e => Throw e
               | Ok _ =>
                   match credentials w !! sql_id rt id with
                   | Some data =>
                       match JSON_parse rt data with
                       | Some v => Ok v
                       | None => Throw "Unexpected token in JSON"
                       end
                   | None => Ok VNull
                   end
               end)
    ∧ credentials w' = credentials w
    ∧ statements w'
      = (statements w ++ opening this w ++ [SelectData (sql_id rt id)])%list
    ∧ uuid_draws w' = uuid_draws w ∧ clock_reads w' = clock_reads w.
Proof.
  unfold opening. run_handler.
  destruct (db this w); simpl; eexists;
    (split; [destruct (credentials w !! sql_id rt id) as [data|]; simpl;
             destruct (ToString rt id) eqn:Hid; simpl; rewrite ?Hid;
             try destruct (JSON_parse rt data); simpl; rewrite ?Hid;
             reflexivity|]); simpl;
    rewrite <- ?app_assoc; by destruct this.
Qed.

(** ** The segments of [POST /issue] *)

Lemma guard_accepted credential :
  accepted credential →
  js_not credential || negb (String.eqb (typeof credential) "object") = false.
Proof. by destruct credential. Qed.

Lemma guard_rejected credential :
  ¬ accepted credential →
  js_not credential || negb (String.eqb (typeof credential) "object") = true.
Proof.
  unfold js_not. destruct credential; simpl; intros H;
    solve [done | apply orb_true_r | by destruct H].
Qed.

Lemma issue_begin_accepted rt credential w :
  accepted credential →
  ∃ w', try_catch (issue_begin rt credential) w
        = (w', inr (resolved_id rt credential w,
                    VObj (assign "id" (resolved_id rt credential w)
                                 (own_props credential))))
    ∧ credentials w' = credentials w ∧ statements w' = statements w
    ∧ issuance_db w' = issuance_db w ∧ clock_reads w' = clock_reads w
    ∧ (truthy (supplied_id credential) = true → w' = w).
Proof.
  intros Hacc. unfold try_catch, issue_begin.
  rewrite (guard_accepted _ Hacc).
  unfold resolved_id, supplied_id, bind, lift, ret, draw_uuid, get_prop.
  destruct credential; try done;
    match goal with |- context [truthy ?x] => destruct (truthy x) end;
    eexists; (split; [reflexivity|]); by simpl.
Qed.

Lemma issue_check_spec rt credentialId credentialWithId w :
  ∃ w', try_catch (issue_check rt credentialId credentialWithId) w
        = (w', match credentials w !! sql_id rt credentialId with
               | Some _ =>
                   inl (logged rt credentialId
                          (message_response 409 "Credential already issued"))
               | None =>
                   inr (credentialId,
                        credential_record rt credentialWithId
                          (toISOString rt (clock_reads w)))
               end)
    ∧ credentials w' = credentials w
    ∧ statements w'
      = (statements w ++ opening Issuance w ++ [SelectId (sql_id rt credentialId)])%list
    ∧ issuance_db w' = true
    ∧ uuid_draws w' = uuid_draws w
    ∧ clock_reads w' = match credentials w !! sql_id rt credentialId with
                       | Some _ => clock_reads w
                       | None => S (clock_reads w)
                       end.
Proof.
  unfold opening, logged. run_handler.
  destruct (issuance_db w) eqn:Hdb; simpl;
    destruct (credentials w !! sql_id rt credentialId); simpl;
    try destruct (ToString rt credentialId); simpl;
    eexists; (split; [reflexivity|]); simpl; rewrite <- ?app_assoc; done.
Qed.

Lemma issue_store_spec rt credentialId record w :
  ∃ w', try_catch (issue_store rt credentialId record) w
        = (w', match JSON_stringify_any rt record,
                     credentials w !! sql_id rt credentialId with
               | Some _, None =>
                   inl (logged rt credentialId
                          (issued_response rt credentialId
                             (toISOString rt (clock_reads w))))
               | _, _ => inl (message_response 500 "Internal server error")
               end)
    ∧ credentials w'
      = match JSON_stringify_any rt record,
              credentials w !! sql_id rt credentialId with
        | Some text, None => <[sql_id rt credentialId := text]> (credentials w)
        | _, _ => credentials w
        end
    ∧ statements w'
      = (statements w ++ opening Issuance w
           ++ [match JSON_stringify_any rt record with
               | Some text => InsertCredential (sql_id rt credentialId) text
               | None => InsertCredentialNull (sql_id rt credentialId)
               end])%list
    ∧ issuance_db w' = true
    ∧ uuid_draws w' = uuid_draws w
    ∧ clock_reads w'
      = match JSON_stringify_any rt record,
              credentials w !! sql_id rt credentialId,
              ToString rt credentialId with
        | Some _, None, Ok _ => S (clock_reads w)
        | _, _, _ => clock_reads w
        end.
Proof.
  unfold opening, logged. run_handler.
  destruct (issuance_db w) eqn:Hdb; simpl;
    destruct (JSON_stringify_any rt record) as [text|]; simpl;
    try destruct (credentials w !! sql_id rt credentialId); simpl;
    destruct (ToString rt credentialId); simpl;
    eexists; (split; [reflexivity|]); simpl; rewrite <- ?app_assoc; done.
Qed.

(** ** [POST /issue], a request handled on its own *)

Lemma POST_issue_rejected rt credential w :
  ¬ accepted credential →
  POST_issue rt credential w = (w, message_response 400 "Invalid credential format").
Proof.
  intros H. unfold POST_issue, try_catch, issue_begin.
  by rewrite (guard_rejected _ H).
Qed.

Lemma POST_issue_accepted rt credential w :
  accepted credential →
  let credentialId := resolved_id rt credential w in
  let key := sql_id rt credentialId in
  let text :=
    JSON_stringify rt
      (credential_record rt (VObj (assign "id" credentialId (own_props credential)))
         (toISOString rt (clock_reads w))) in
  ∃ w', POST_issue rt credential w
        = (w', logged rt credentialId
                 match credentials w !! key with
                 | Some _ => message_response 409 "Credential already issued"
                 | None => issued_response rt credentialId
                             (toISOString rt (S (clock_reads w)))
                 end)
    ∧ credentials w' = match credentials w !! key with
                       | Some _ => credentials w
                       | None => <[key := text]> (credentials w)
                       end
    ∧ statements w'
      = (statements w ++ opening Issuance w
           ++ SelectId key :: match credentials w !! key with
                              | Some _ => []
                              | None => [InsertCredential key text]
                              end)%list.
Proof.
  intros Hacc credentialId key text. unfold POST_issue.
  destruct (issue_begin_accepted rt credential w Hacc)
    as (w1 & -> & Hc1 & Hs1 & Hdb1 & Hk1 & _).
  fold credentialId.
  destruct (issue_check_spec rt credentialId
              (VObj (assign "id" credentialId (own_props credential))) w1)
    as (w2 & -> & Hc2 & Hs2 & Hdb2 & _ & Hk2).
  fold key in Hs2, Hk2 |- *. rewrite Hc1, Hk1 in *.
  assert (opening Issuance w1 = opening Issuance w) as Hop
    by (unfold opening; simpl; by rewrite Hdb1).
  rewrite Hs1, Hop in Hs2.
  destruct (credentials w !! key) eqn:Hrow.
  - exists w2. by rewrite Hc2, Hs2.
  - destruct (issue_store_spec rt credentialId
                (credential_record rt
                   (VObj (assign "id" credentialId (own_props credential)))
                   (toISOString rt (clock_reads w))) w2)
      as (w3 & -> & Hc3 & Hs3 & _ & _).
    simpl in Hc3, Hs3 |- *.
    fold key text in Hc3, Hs3 |- *. rewrite Hc2, Hrow in *.
    exists w3. rewrite Hk2. split; [done|]. split; [done|].
    assert (opening Issuance w2 = []) as Hop2
      by (unfold opening; simpl; by rewrite Hdb2).
    rewrite Hs3, Hs2, Hop2. by rewrite <- !app_assoc.
Qed.

(** An id that is a string, a number, a boolean, or an object without a
    property [toString] converts to a string. *)
Lemma logged_printable rt id text res :
  ToString rt id = Ok text → logged rt id res = res.
Proof. intros H. unfold logged. by rewrite H. Qed.

Lemma resolved_id_supplied rt props v w :
  assoc "id" props = Some v → truthy v = true →
  resolved_id rt (VObj props) w = v.
Proof.
  intros Hid Hv. unfold resolved_id, supplied_id. simpl. rewrite Hid. simpl.
  by rewrite Hv.
Qed.

Lemma resolved_id_generated rt props v w :
  assoc "id" props = Some v → truthy v = false →
  resolved_id rt (VObj props) w = VStr (uuidv4 rt (uuid_draws w)).
Proof.
  intros Hid Hv. unfold resolved_id, supplied_id. simpl. rewrite Hid. simpl.
  by rewrite Hv.
Qed.

Lemma POST_issue_conflict rt v text credential w data :
  truthy v = true → ToString rt v = Ok text → carries v credential →
  credentials w !! sql_id rt v = Some data →
  ∃ w', POST_issue rt credential w
        = (w', message_response 409 "Credential already issued")
    ∧ credentials w' = credentials w
    ∧ statements w'
      = (statements w ++ opening Issuance w ++ [SelectId (sql_id rt v)])%list.
Proof.
  intros Hv Htext (props & -> & Hid) Hrow.
  destruct (POST_issue_accepted rt (VObj props) w I) as (w' & Hrun & Hc & Hs).
  rewrite (resolved_id_supplied rt props v w Hid Hv), Hrow in *.
  rewrite (logged_printable rt v text) in Hrun by done.
  by exists w'.
Qed.

(** No request removes or rewrites a row. *)
Lemma POST_issue_keeps_rows rt credential w key data :
  credentials w !! key = Some data →
  credentials (POST_issue rt credential w).1 !! key = Some data.
Proof.
  intros Hrow. destruct (decide (accepted credential)) as [Hacc|Hrej].
  - destruct (POST_issue_accepted rt credential w Hacc) as (w' & Hrun & Hc & _).
    rewrite Hrun. simpl. rewrite Hc. destruct (credentials w !! sql_id rt _) eqn:Hnew; [done|].
    rewrite lookup_insert_ne; [done|]. intros <-. congruence.
  - by rewrite POST_issue_rejected.
Qed.

Lemma issue_all_keeps_rows rt requests w key data :
  credentials w !! key = Some data →
  credentials (issue_all rt requests w).1 !! key = Some data.
Proof.
  revert w. induction requests as [|credential rest IH]; intros w Hrow; [done|].
  simpl. pose proof (POST_issue_keeps_rows rt credential w key data Hrow) as H1.
  destruct (POST_issue rt credential w) as [w1 res]. simpl in H1.
  specialize (IH w1 H1). by destruct (issue_all rt rest w1).
Qed.

Lemma issue_all_conflicts rt v text requests w data :
  truthy v = true → ToString rt v = Ok text → Forall (carries v) requests →
  credentials w !! sql_id rt v = Some data →
  Forall (λ res, res = message_response 409 "Credential already issued")
    (issue_all rt requests w).2.
Proof.
  intros Hv Htext Hall. revert w.
  induction Hall as [|credential rest Hc _ IH]; intros w Hrow; [by constructor|].
  simpl.
  destruct (POST_issue_conflict rt v text credential w data Hv Htext Hc Hrow)
    as (w1 & Hrun & Hc1 & _).
  rewrite Hrun. rewrite <- Hc1 in Hrow. specialize (IH w1 Hrow).
  destruct (issue_all rt rest w1). by constructor.
Qed.

Lemma conflicts_never_succeed (l : list Response) :
  Forall (λ res, res = message_response 409 "Credential already issued") l →
  filter (λ res, succeeded res = true) l = [].
Proof.
  induction 1 as [|res l -> _ IH]; [done|].
  rewrite filter_cons_False; [done|]. by vm_compute.
Qed.

Lemma issue_all_conflicts_frame rt v text requests w data :
  truthy v = true → ToString rt v = Ok text → Forall (carries v) requests →
  credentials w !! sql_id rt v = Some data →
  credentials (issue_all rt requests w).1 = credentials w
  ∧ ∃ sent_, statements (issue_all rt requests w).1 = (statements w ++ sent_)%list
      ∧ Forall (λ q, q = CreateTable ∨ q = SelectId (sql_id rt v)) sent_.
Proof.
  intros Hv Htext Hall. revert w.
  induction Hall as [|credential rest Hc _ IH]; intros w Hrow; simpl.
  { split; [done|]. exists []. by rewrite app_nil_r. }
  destruct (POST_issue_conflict rt v text credential w data Hv Htext Hc Hrow)
    as (w1 & Hrun & Hc1 & Hs1).
  rewrite Hrun. rewrite <- Hc1 in Hrow.
  destruct (IH w1 Hrow) as (Hc2 & sent2 & Hs2 & Hsel).
  destruct (issue_all rt rest w1) as [w2 ress]. simpl in *.
  split; [congruence|].
  exists (opening Issuance w ++ [SelectId (sql_id rt v)] ++ sent2)%list.
  split.
  - rewrite Hs2, Hs1. by rewrite <- !app_assoc.
  - apply Forall_app. split.
    + unfold opening. destruct (db Issuance w); repeat constructor.
    + constructor; [by right|done].
Qed.

(** C1. For a truthy id [v] that converts to a string (every string does)
    and any requests that all carry [v], handled one after the other from
    any world: at most one of them is answered 201.  When no row for [v] is
    stored, the first is answered 201 and every later one with the 409
    conflict.  Once a row for [v] is stored, each of them is answered with
    the 409 conflict, the table is left as it was (so the stored row, with
    its worker and timestamp, is the original one), the only statements sent
    are the SELECT of [exists] (and the CREATE TABLE IF NOT EXISTS of a
    first use), never an INSERT, and no later request of any kind changes
    that row. *)
Theorem issue_at_most_once rt (v : value) (text : string) (w : World)
    (requests : list value) :
  let conflict :=
    {| status := 409;
       body := VObj [("message", VStr "Credential already issued")] |} in
  truthy v = true →
  ToString rt v = Ok text →
  Forall (carries v) requests →
  (length (filter (λ res, succeeded res = true) (issue_all rt requests w).2) ≤ 1)%nat
  ∧ (credentials w !! sql_id rt v = None →
     ∀ first rest, requests = first :: rest →
       ∃ ress,
         (issue_all rt requests w).2
         = {| status := 201;
              body := VObj [("message",
                             VStr ("Credential issued by " ++ WORKER_ID rt));
                            ("worker", VStr (WORKER_ID rt));
                            ("credentialId", v);
                            ("timestamp",
                             VStr (toISOString rt (S (clock_reads w))))] |}
           :: ress
         ∧ Forall (λ res, res = conflict) ress)
  ∧ ∀ data, credentials w !! sql_id rt v = Some data →
      Forall (λ res, res = conflict) (issue_all rt requests w).2
      ∧ credentials (issue_all rt requests w).1 = credentials w
      ∧ (∃ sent_,
           statements (issue_all rt requests w).1 = (statements w ++ sent_)%list
           ∧ Forall (λ q, q = CreateTable ∨ q = SelectId (sql_id rt v)) sent_)
      ∧ ∀ others, credentials (issue_all rt others w).1 !! sql_id rt v = Some data.
Proof.
  intros conflict Hv Htext Hall.
  assert (credentials w !! sql_id rt v = None →
          ∀ first rest, requests = first :: rest →
            ∃ ress,
              (issue_all rt requests w).2
              = issued_response rt v (toISOString rt (S (clock_reads w))) :: ress
              ∧ Forall (λ res, res = conflict) ress) as Hfresh.
  { intros Hrow first rest ->. apply Forall_cons in Hall as [Hc Hrest]. simpl.
    destruct Hc as (props & -> & Hid).
    destruct (POST_issue_accepted rt (VObj props) w I) as (w1 & Hrun & Hc1 & _).
    rewrite (resolved_id_supplied rt props v w Hid Hv), Hrow in *.
    rewrite (logged_printable rt v text) in Hrun by done.
    rewrite Hrun.
    assert (credentials w1 !! sql_id rt v
            = Some (JSON_stringify rt
                      (credential_record rt (VObj (assign "id" v (own_props (VObj props))))
                         (toISOString rt (clock_reads w))))) as Hrow1
      by (rewrite Hc1; apply lookup_insert_eq).
    pose proof (issue_all_conflicts rt v text rest w1 _ Hv Htext Hrest Hrow1)
      as Hrest'.
    destruct (issue_all rt rest w1) as [w2 ress]. cbn [snd] in *.
    by exists ress. }
  split; [|split; [exact Hfresh|]].
  - destruct (credentials w !! sql_id rt v) as [data|] eqn:Hrow.
    + rewrite (conflicts_never_succeed _
                 (issue_all_conflicts rt v text _ w data Hv Htext Hall Hrow)).
      simpl. lia.
    + destruct requests as [|first rest]; [simpl; lia|].
      destruct (Hfresh eq_refl first rest eq_refl) as (ress & -> & Hress).
      rewrite filter_cons_True by done.
      rewrite (conflicts_never_succeed _ Hress). simpl. lia.
  - intros data Hrow. split; [by eapply issue_all_conflicts|].
    destruct (issue_all_conflicts_frame rt v text requests w data Hv Htext Hall Hrow)
      as [Hc Hs].
    split; [done|]. split; [done|].
    intros others. by apply issue_all_keeps_rows.
Qed.

(** C3. [save(id, data)] for a string [id] sends the INSERT and no other
    statement (but the CREATE TABLE IF NOT EXISTS of a first use), so what
    rejects a duplicate is the engine: when the table has a row with that
    [id] the call throws and the table, that row included, is as before,
    whatever the caller checked; when it has none, the call returns and the
    table has the new row with the serialised [data], unless [data] is
    [undefined], which the column rejects.  A second [save] of the same
    [id], through either handle and with any data, then throws and leaves
    the first row as it is. *)
Theorem save_inserts_or_fails rt (this that : Service) (id : string)
    (data data' : value) (w : World) :
  let w1 := (Storage_save rt this (VStr id) data w).1 in
  statements w1
  = (statements w ++ opening this w
       ++ [match data with
           | VUndefined => InsertCredentialNull id
           | _ => InsertCredential id (JSON_stringify rt data)
           end])%list
  ∧ (∀ old, credentials w !! id = Some old →
       (∃ e, (Storage_save rt this (VStr id) data w).2 = Throw e)
       ∧ credentials w1 = credentials w
       ∧ credentials w1 !! id = Some old)
  ∧ (credentials w !! id = None → data = VUndefined →
       (∃ e, (Storage_save rt this (VStr id) data w).2 = Throw e)
       ∧ credentials w1 = credentials w)
  ∧ (credentials w !! id = None → data ≠ VUndefined →
       (Storage_save rt this (VStr id) data w).2 = Ok tt
       ∧ credentials w1 = <[id := JSON_stringify rt data]> (credentials w)
       ∧ (∃ e, (Storage_save rt that (VStr id) data' w1).2 = Throw e)
       ∧ credentials (Storage_save rt that (VStr id) data' w1).1 !! id
         = Some (JSON_stringify rt data)).
Proof.
  intros w1.
  destruct (Storage_save_spec rt this (VStr id) data w)
    as (w' & outcome & Hrun & _ & _ & _ & Hsave).
  subst w1. rewrite Hrun. cbn [fst snd]. simpl sql_id in Hsave.
  split; [|split; [|split]].
  - destruct data; simpl in Hsave; tauto.
  - intros old Hrow. rewrite Hrow in Hsave.
    destruct (JSON_stringify_any rt data).
    + destruct Hsave as (_ & He & Hc). by rewrite Hc.
    + destruct Hsave as (He & Hc & _). by rewrite Hc.
  - intros _ ->. simpl in Hsave. tauto.
  - intros Hrow Hdata. rewrite Hrow in Hsave.
    assert (JSON_stringify_any rt data = Some (JSON_stringify rt data)) as Htext
      by (by destruct data).
    rewrite Htext in Hsave. destruct Hsave as (_ & -> & Hc).
    split; [done|]. split; [done|].
    destruct (Storage_save_spec rt that (VStr id) data' w')
      as (w2 & outcome2 & Hrun2 & _ & _ & _ & Hsave2).
    rewrite Hrun2. cbn [fst snd]. simpl sql_id in Hsave2.
    assert (credentials w' !! id = Some (JSON_stringify rt data)) as Hrow1
      by (rewrite Hc; apply lookup_insert_eq).
    rewrite Hrow1 in Hsave2.
    destruct (JSON_stringify_any rt data') as [text'|].
    + destruct Hsave2 as (_ & He & Hc2). split; [done|]. by rewrite Hc2.
    + destruct Hsave2 as (He & Hc2 & _). split; [done|]. by rewrite Hc2.
Qed.

(** The table changes only in the segment of a successful INSERT, and then
    by one new row; the answer is the 201, unless the log line after the
    INSERT throws. *)
Lemma issue_step_rows rt t w :
  credentials (issue_step rt t w).1 = credentials w
  ∨ ∃ credentialId record text,
      t = IssueAwaitSave credentialId record
      ∧ JSON_stringify_any rt record = Some text
      ∧ credentials w !! sql_id rt credentialId = None
      ∧ credentials (issue_step rt t w).1
        = <[sql_id rt credentialId := text]> (credentials w)
      ∧ (issue_step rt t w).2
        = IssueResponded (logged rt credentialId
                            (issued_response rt credentialId
                               (toISOString rt (clock_reads w)))).
Proof.
  destruct t as [credential|credentialId doc|credentialId record|res]; simpl.
  - left. destruct (decide (accepted credential)) as [Hacc|Hrej].
    + destruct (issue_begin_accepted rt credential w Hacc) as (w' & Hrun & Hc & _).
      by rewrite Hrun.
    + unfold try_catch, issue_begin. by rewrite (guard_rejected _ Hrej).
  - left. destruct (issue_check_spec rt credentialId doc w) as (w' & Hrun & Hc & _).
    rewrite Hrun. by destruct (credentials w !! _).
  - destruct (issue_store_spec rt credentialId record w) as (w' & Hrun & Hc & _).
    rewrite Hrun.
    destruct (JSON_stringify_any rt record) as [text|] eqn:Htext; [|by left].
    destruct (credentials w !! sql_id rt credentialId) eqn:Hrow; simpl.
    + by left.
    + right. by exists credentialId, record, text.
  - by left.
Qed.

(** C7, as the code has it, for a request whose resolved id converts to a
    string (every string does, a generated id included).  [POST /issue]
    either answers 201, and then the table has exactly one row more, under
    the resolved id, holding the serialised payload (with its id), worker
    name and the timestamp read before the INSERT, while the response
    carries the resolved id, the same worker name and the timestamp of a
    second, later reading of the clock; or it answers something else and the
    table is as before.  Segment by segment, whatever other requests do in
    between: a segment changes the table only by the one row of its INSERT,
    and for such an id it then ends with the 201. *)
Theorem issue_effect rt (credential : value) (text : string) (w : World) :
  let w' := (POST_issue rt credential w).1 in
  let res := (POST_issue rt credential w).2 in
  let credentialId := resolved_id rt credential w in
  let record :=
    VObj [("credential", VObj (assign "id" credentialId (own_props credential)));
          ("worker", VStr (WORKER_ID rt));
          ("timestamp", VStr (toISOString rt (clock_reads w)))] in
  ToString rt credentialId = Ok text →
  ((res = {| status := 201;
             body := VObj [("message", VStr ("Credential issued by " ++ WORKER_ID rt));
                           ("worker", VStr (WORKER_ID rt));
                           ("credentialId", credentialId);
                           ("timestamp", VStr (toISOString rt (S (clock_reads w))))] |}
    ∧ credentials w !! sql_id rt credentialId = None
    ∧ credentials w'
      = <[sql_id rt credentialId := JSON_stringify rt record]> (credentials w)
    ∧ size (credentials w') = S (size (credentials w)))
   ∨ (status res ≠ 201 ∧ credentials w' = credentials w))
  ∧ ∀ t w0,
      credentials (issue_step rt t w0).1 = credentials w0
      ∨ ∃ id0 record0 text0,
          t = IssueAwaitSave id0 record0
          ∧ JSON_stringify_any rt record0 = Some text0
          ∧ credentials w0 !! sql_id rt id0 = None
          ∧ credentials (issue_step rt t w0).1
            = <[sql_id rt id0 := text0]> (credentials w0)
          ∧ ∀ text', ToString rt id0 = Ok text' →
              (issue_step rt t w0).2
              = IssueResponded
                  {| status := 201;
                     body := VObj [("message",
                                    VStr ("Credential issued by " ++ WORKER_ID rt));
                                   ("worker", VStr (WORKER_ID rt));
                                   ("credentialId", id0);
                                   ("timestamp",
                                    VStr (toISOString rt (clock_reads w0)))] |}.
Proof.
  intros w' res credentialId record Htext. split.
  - subst w' res. destruct (decide (accepted credential)) as [Hacc|Hrej].
    + destruct (POST_issue_accepted rt credential w Hacc) as (w' & Hrun & Hc & _).
      rewrite Hrun. fold credentialId in Hc |- *.
      rewrite (logged_printable rt credentialId text) by done. simpl.
      destruct (credentials w !! sql_id rt credentialId) eqn:Hrow.
      * right. by split.
      * left. split; [done|]. split; [done|]. split; [done|].
        rewrite Hc. by apply map_size_insert_None.
    + rewrite POST_issue_rejected by done. right. by split.
  - intros t w0.
    destruct (issue_step_rows rt t w0)
      as [Hsame|(id0 & record0 & text0 & -> & Hsome & Hnone & Hc & Hres)];
      [by left|].
    right. exists id0, record0, text0. repeat (split; [done|]).
    intros text' Htext'. rewrite Hres.
    by rewrite (logged_printable rt id0 text').
Qed.

(** C7 at work: [{name: "Jane"}]. *)
Lemma issue_effect_witness :
  ToString Reference.runtime (resolved_id Reference.runtime Reference.jane
                                Reference.started)
  = Ok "00000000-0000-4000-8000-0"
  ∧ size (credentials (POST_issue Reference.runtime Reference.jane
                         Reference.started).1) = 1.
Proof.
  assert (ToString Reference.runtime
            (resolved_id Reference.runtime Reference.jane Reference.started)
          = Ok "00000000-0000-4000-8000-0") as Htext by reflexivity.
  split; [exact Htext|].
  destruct (proj1 (issue_effect Reference.runtime Reference.jane _
                     Reference.started Htext)) as [(_ & _ & _ & Hsize)|[Hno _]].
  - exact Hsize.
  - vm_compute in Hno. by destruct Hno.
Defined.

(** C7, as stated, fails: the request [{name: "Jane"}] is answered 201 with
    the timestamp of the second clock reading, while the stored record holds
    the first. *)
Lemma issue_response_timestamp_differs :
  let out := POST_issue Reference.runtime Reference.jane Reference.started in
  status out.2 = 201
  ∧ get_prop (body out.2) "timestamp" = Ok (VStr "2025-10-07T08:10:11.1Z")
  ∧ match (Storage_get Reference.runtime Verification
             (VStr "00000000-0000-4000-8000-0") out.1).2 with
    | Ok record => get_prop record "timestamp"
    | Throw e => Throw e
    end = Ok (VStr "2025-10-07T08:10:11.0Z").
Proof. vm_compute. done. Qed.

(** C9. A request whose [id] is falsy (the empty string, 0, false and null
    are) is not rejected for it: the supplied value is dropped, the next
    UUID is the id, the stored payload carries that UUID as its [id], and the
    answer is the 201 with that UUID unless a row under that UUID exists
    already. *)
Theorem issue_falsy_id_replaced rt (props : list (string * value)) (v : value) (w : World) :
  assoc "id" props = Some v →
  truthy v = false →
  let fresh := uuidv4 rt (uuid_draws w) in
  let text :=
    JSON_stringify rt
      (credential_record rt (VObj (assign "id" (VStr fresh) props))
         (toISOString rt (clock_reads w))) in
  Forall (λ x, truthy x = false) [VStr EmptyString; VNum 0; VBool false; VNull]
  ∧ (issue_step rt (IssueReceived (VObj props)) w).2
    = IssueAwaitExists (VStr fresh) (VObj (assign "id" (VStr fresh) props))
  ∧ ∃ w', POST_issue rt (VObj props) w
          = (w', match credentials w !! fresh with
                 | Some _ => message_response 409 "Credential already issued"
                 | None => issued_response rt (VStr fresh)
                             (toISOString rt (S (clock_reads w)))
                 end)
      ∧ (credentials w !! fresh = None → credentials w' !! fresh = Some text).
Proof.
  intros Hid Hv fresh text. split; [by repeat constructor|]. split.
  - simpl. destruct (issue_begin_accepted rt (VObj props) w I) as (w' & Hrun & _).
    rewrite Hrun. by rewrite (resolved_id_generated rt props v w Hid Hv).
  - destruct (POST_issue_accepted rt (VObj props) w I) as (w' & Hrun & Hc & _).
    rewrite (resolved_id_generated rt props v w Hid Hv) in *. simpl in *.
    fold fresh text in Hrun, Hc. exists w'. split; [done|].
    intros Hnone. rewrite Hc, Hnone. apply lookup_insert_eq.
Qed.

(** ** [POST /verify] *)

Lemma POST_verify_rejected rt credential w :
  ¬ accepted credential →
  POST_verify rt credential w = (w, message_response 400 "Invalid credential format").
Proof.
  intros H. unfold POST_verify, try_catch, verify_begin.
  by rewrite (guard_rejected _ H).
Qed.

Lemma verify_begin_accepted credential w :
  accepted credential →
  try_catch (verify_begin credential) w
  = (w, if truthy (supplied_id credential) then inr (supplied_id credential)
        else inl (message_response 400 "Credential ID is required")).
Proof.
  intros Hacc. unfold try_catch, verify_begin.
  rewrite (guard_accepted _ Hacc).
  unfold supplied_id, bind, lift, ret, get_prop, js_not.
  destruct credential; try done;
    match goal with |- context [truthy ?x] => by destruct (truthy x) end.
Qed.

Lemma verify_lookup_spec rt credentialId w :
  ∃ w', try_catch (verify_lookup rt credentialId) w
        = (w', inl (logged rt credentialId
                      (verdict rt (credentials w !! sql_id rt credentialId))))
    ∧ credentials w' = credentials w
    ∧ statements w'
      = (statements w ++ opening Verification w
           ++ [SelectData (sql_id rt credentialId)])%list
    ∧ uuid_draws w' = uuid_draws w ∧ clock_reads w' = clock_reads w.
Proof.
  destruct (Storage_get_spec rt Verification credentialId w)
    as (w' & Hget & Hrest).
  exists w'. split; [|done].
  unfold try_catch, verify_lookup, bind, template, lift, logged.
  rewrite Hget. unfold verdict.
  destruct (ToString rt credentialId) as [text|e] eqn:Hid; [|done].
  destruct (credentials w !! sql_id rt credentialId) as [data|];
    [|simpl; by rewrite ?Hid].
  destruct (JSON_parse rt data) as [record|]; [|done].
  unfold js_not, field.
  destruct record as [| |b|n|s|items|props]; simpl; rewrite ?Hid; try done.
  - destruct b; simpl; by rewrite ?Hid.
  - destruct (PrimFloat.is_zero n || PrimFloat.is_nan n); simpl; by rewrite ?Hid.
  - destruct (String.eqb s EmptyString); simpl; by rewrite ?Hid.
Qed.

Lemma POST_verify_accepted rt credential w :
  accepted credential →
  truthy (supplied_id credential) = true →
  ∃ w', POST_verify rt credential w
        = (w', logged rt (supplied_id credential)
                 (verdict rt (credentials w !! sql_id rt (supplied_id credential))))
    ∧ credentials w' = credentials w
    ∧ statements w'
      = (statements w ++ opening Verification w
           ++ [SelectData (sql_id rt (supplied_id credential))])%list.
Proof.
  intros Hacc Hid. unfold POST_verify.
  rewrite (verify_begin_accepted _ _ Hacc), Hid.
  destruct (verify_lookup_spec rt (supplied_id credential) w)
    as (w' & -> & Hc & Hs & _).
  by exists w'.
Qed.

Lemma POST_verify_missing_id rt credential w :
  accepted credential →
  truthy (supplied_id credential) = false →
  POST_verify rt credential w
  = (w, message_response 400 "Credential ID is required").
Proof.
  intros Hacc Hid. unfold POST_verify.
  by rewrite (verify_begin_accepted _ _ Hacc), Hid.
Qed.

Lemma verify_step_rows rt t w :
  credentials (verify_step rt t w).1 = credentials w.
Proof.
  destruct t as [credential|credentialId|res]; simpl; [| |done].
  - destruct (decide (accepted credential)) as [Hacc|Hrej].
    + rewrite (verify_begin_accepted _ _ Hacc). by destruct (truthy _).
    + unfold try_catch, verify_begin. by rewrite (guard_rejected _ Hrej).
  - destruct (verify_lookup_spec rt credentialId w) as (w' & Hrun & Hc & _).
    by rewrite Hrun.
Qed.

(** C10. A verification request whose [id] is falsy (the empty string, 0,
    false and null are) is answered 400 "Credential ID is required" in its
    first segment; the world, the list of statements sent to the engine
    included, is as before: no lookup is made. *)
Theorem verify_falsy_id_rejected rt (props : list (string * value)) (v : value) (w : World) :
  assoc "id" props = Some v →
  truthy v = false →
  Forall (λ x, truthy x = false) [VStr EmptyString; VNum 0; VBool false; VNull]
  ∧ verify_step rt (VerifyReceived (VObj props)) w
    = (w, VerifyResponded (message_response 400 "Credential ID is required"))
  ∧ POST_verify rt (VObj props) w
    = (w, message_response 400 "Credential ID is required")
  ∧ statements (POST_verify rt (VObj props) w).1 = statements w.
Proof.
  intros Hid Hv.
  assert (truthy (supplied_id (VObj props)) = false) as Hs
    by (unfold supplied_id; simpl; by rewrite Hid).
  split; [by repeat constructor|]. split.
  - simpl. by rewrite (verify_begin_accepted (VObj props) w I), Hs.
  - by rewrite (POST_verify_missing_id rt (VObj props) w I Hs).
Qed.

Lemma resolved_id_printable rt credential w :
  printable rt (supplied_id credential) →
  printable rt (resolved_id rt credential w).
Proof.
  intros H. unfold resolved_id.
  destruct (truthy (supplied_id credential)); [done|]. by eexists.
Qed.



Lemma supplied_id_carries v credential :
  carries v credential → accepted credential ∧ supplied_id credential = v.
Proof.
  intros (props & -> & Hid). split; [done|].
  unfold supplied_id. simpl. by rewrite Hid.
Qed.


(** C8. [POST /verify] leaves the table as it is, for every request and
    every world, in each of its segments; the statements it sends are the
    SELECT of [get] (and the CREATE TABLE IF NOT EXISTS of a first use).
    Whatever record was stored for the requested id, if the row is the text
    [save] wrote for it and [JSON.parse] reads that text, the answer for an
    id that converts to a string is not the 500: it is the 200 with status
    "valid" and the three fields of the record that was read. *)
Theorem verify_reads_only rt (credential : value) (w : World) :
  credentials (POST_verify rt credential w).1 = credentials w
  ∧ (∀ t w0, credentials (verify_step rt t w0).1 = credentials w0)
  ∧ (∃ sent_,
       statements (POST_verify rt credential w).1 = (statements w ++ sent_)%list
       ∧ Forall (λ q, q = CreateTable ∨ ∃ id, q = SelectData id) sent_)
  ∧ ∀ record read,
      accepted credential →
      truthy (supplied_id credential) = true →
      printable rt (supplied_id credential) →
      credentials w !! sql_id rt (supplied_id credential)
        = Some (JSON_stringify rt record) →
      JSON_parse rt (JSON_stringify rt record) = Some read →
      status (POST_verify rt credential w).2 ≠ 500
      ∧ (truthy read = true →
         (POST_verify rt credential w).2
         = {| status := 200;
              body := VObj [("status", VStr "valid");
                            ("worker", field read "worker");
                            ("timestamp", field read "timestamp");
                            ("credential", field read "credential")] |}).
Proof.
  assert (∀ w1, (statements w1 ++ [])%list = statements w1) as Hnil
    by (intros; apply app_nil_r).
  destruct (decide (accepted credential)) as [Hacc|Hrej];
    [destruct (truthy (supplied_id credential)) eqn:Hid|].
  - destruct (POST_verify_accepted rt credential w Hacc Hid) as (w' & Hrun & Hc & Hs).
    rewrite Hrun. simpl. split; [done|]. split; [apply verify_step_rows|]. split.
    + eexists. split; [exact Hs|]. apply Forall_app. split.
      * unfold opening. destruct (db Verification w); repeat constructor.
      * constructor; [right; by eexists|constructor].
    + intros record read _ _ [text Htext] Hrow Hparse.
      rewrite (logged_printable _ _ _ _ Htext). unfold verdict.
      rewrite Hrow, Hparse. split; [by destruct (truthy read)|]. by intros ->.
  - rewrite (POST_verify_missing_id rt credential w Hacc Hid). simpl.
    split; [done|]. split; [apply verify_step_rows|]. split.
    + exists []. by rewrite Hnil.
    + intros ? ? _ ?. congruence.
  - rewrite (POST_verify_rejected rt credential w Hrej). simpl.
    split; [done|]. split; [apply verify_step_rows|]. split.
    + exists []. by rewrite Hnil.
    + intros ? ? ?. done.
Qed.

(** C6, as the code has it. A body that is not of type object, or is null
    (a string, a number, a boolean, [null], [undefined]), is answered 400
    "Invalid credential format" by both handlers, and the world, the list of
    statements sent to the engine included, is as before.  An array is
    answered 400 by [POST /verify] too, as a request without id, again with
    the world as before. *)
Theorem malformed_body_rejected rt (credential : value) (items : list value) (w : World) :
  ¬ accepted credential →
  POST_issue rt credential w
  = (w, message_response 400 "Invalid credential format")
  ∧ POST_verify rt credential w
    = (w, message_response 400 "Invalid credential format")
  ∧ POST_verify rt (VArr items) w
    = (w, message_response 400 "Credential ID is required")
  ∧ (∀ s, ¬ accepted (VStr s)) ∧ ¬ accepted VNull.
Proof.
  intros Hrej. split; [by apply POST_issue_rejected|].
  split; [by apply POST_verify_rejected|].
  split; [|split; [intros s []|intros []]].
  apply (POST_verify_missing_id rt (VArr items) w I).
  unfold supplied_id. simpl. by rewrite assoc_index_props_id.
Qed.

(** C6, as stated, fails on [POST /issue]: an array passes the guard, is
    answered 201 and a row is inserted. *)
Lemma issue_accepts_array :
  let out := POST_issue Reference.runtime (VArr [VStr "a"]) Reference.started in
  status out.2 = 201
  ∧ size (credentials Reference.started) = 0
  ∧ size (credentials out.1) = 1
  ∧ last (statements out.1)
    = Some (InsertCredential "00000000-0000-4000-8000-0"
              (Reference.stringify
                 (credential_record Reference.runtime
                    (VObj [("0", VStr "a"); ("id", VStr "00000000-0000-4000-8000-0")])
                    "2025-10-07T08:10:11.0Z"))).
Proof. vm_compute. done. Qed.

(** C2, as the code has it. Issue an object [props]; let the answer be the
    201.  The answer names the resolved id, and the row stored under it is
    the serialised record of the payload with that id, the worker name and
    the timestamp read before the INSERT.  If [JSON.parse] reads that text
    back as the record, then, after any further requests to [POST /issue], a
    verification request carrying the resolved id is answered 200 with
    status "valid", that worker name, that timestamp and that payload: the
    properties of [props] with [id] set to the resolved id, every other
    property as submitted. *)
Theorem issue_then_verify rt (props : list (string * value)) (w : World)
    (others : list value) (query : value) :
  let out := POST_issue rt (VObj props) w in
  let credentialId := resolved_id rt (VObj props) w in
  let stored := VObj (assign "id" credentialId props) in
  let timestamp := toISOString rt (clock_reads w) in
  let record :=
    VObj [("credential", stored);
          ("worker", VStr (WORKER_ID rt));
          ("timestamp", VStr timestamp)] in
  status out.2 = 201 →
  truthy credentialId = true →
  JSON_parse rt (JSON_stringify rt record) = Some record →
  carries credentialId query →
  get_prop (body out.2) "credentialId" = Ok credentialId
  ∧ credentials out.1 !! sql_id rt credentialId = Some (JSON_stringify rt record)
  ∧ (POST_verify rt query (issue_all rt others out.1).1).2
    = {| status := 200;
         body := VObj [("status", VStr "valid");
                       ("worker", VStr (WORKER_ID rt));
                       ("timestamp", VStr timestamp);
                       ("credential", stored)] |}
  ∧ assoc "id" (own_props stored) = Some credentialId
  ∧ ∀ k, k ≠ "id" → assoc k (own_props stored) = assoc k props.
Proof.
  intros out credentialId stored timestamp record Hok Htruthy Hcodec Hq.
  destruct (POST_issue_accepted rt (VObj props) w I) as (w1 & Hrun & Hc & _).
  fold credentialId in Hrun, Hc. simpl in Hc. unfold credential_record in Hc.
  fold stored timestamp record in Hc.
  subst out. rewrite Hrun in *. unfold logged in *.
  destruct (ToString rt credentialId) as [text|e] eqn:Htext; [|done].
  simpl in Hok |- *.
  destruct (credentials w !! sql_id rt credentialId) eqn:Hrow; [done|].
  split; [done|].
  assert (credentials w1 !! sql_id rt credentialId
          = Some (JSON_stringify rt record)) as Hrow1
    by (rewrite Hc; apply lookup_insert_eq).
  split; [done|]. split.
  - destruct (supplied_id_carries credentialId query Hq) as [Hacc Hid].
    pose proof (issue_all_keeps_rows rt others w1 _ _ Hrow1) as Hrow2.
    destruct (POST_verify_accepted rt query (issue_all rt others w1).1 Hacc)
      as (w2 & Hver & _).
    { by rewrite Hid. }
    rewrite Hver, Hid, Hrow2. unfold logged. rewrite Htext. simpl.
    by rewrite Hcodec.
  - split; [apply assoc_assign_eq|]. intros k Hk. by apply assoc_assign_ne.
Qed.

(** C2, as stated, fails: a payload holding a number that JSON cannot
    write, here [{x: Infinity}] as the body parser delivers [{"x": 1e400}],
    is issued with a 201 and verified with a 200, but the payload returned
    has [x: null]. *)
Lemma verify_returns_null_for_infinity :
  let payload := VObj [("x", VNum PrimFloat.infinity)] in
  let out := POST_issue Reference.runtime payload Reference.started in
  let back :=
    POST_verify Reference.runtime (VObj [("id", VStr "00000000-0000-4000-8000-0")])
      out.1 in
  status out.2 = 201
  ∧ get_prop (body out.2) "credentialId" = Ok (VStr "00000000-0000-4000-8000-0")
  ∧ status back.2 = 200
  ∧ get_prop (body back.2) "status" = Ok (VStr "valid")
  ∧ get_prop (body back.2) "credential"
    = Ok (VObj [("x", VNull); ("id", VStr "00000000-0000-4000-8000-0")])
  ∧ VObj [("x", VNull); ("id", VStr "00000000-0000-4000-8000-0")]
    ≠ VObj (assign "id" (VStr "00000000-0000-4000-8000-0")
              [("x", VNum PrimFloat.infinity)]).
Proof. vm_compute. repeat (split; [reflexivity|]). discriminate. Qed.

(** ** Two [POST /issue] requests for the same id, interleaved *)

#[local] Arguments Nat.min : simpl never.

(** Every turn moves a task on, until it has responded. *)
Lemma issue_step_progress rt t w :
  (Nat.min 3 (S (phase t)) ≤ phase (issue_step rt t w).2)%nat.
Proof.
  destruct t as [credential|credentialId doc|credentialId record|res]; simpl.
  - destruct (try_catch _ w) as [w' [res|[credentialId doc]]]; simpl; lia.
  - destruct (try_catch _ w) as [w' [res|[credentialId' record]]]; simpl; lia.
  - destruct (try_catch _ w) as [w' [res|[]]]; simpl; lia.
  - lia.
Qed.

Lemma interleave_progress rt schedule w a b :
  (Nat.min 3 (phase a + turns First schedule)
   ≤ phase (interleave rt schedule w a b).1.2)%nat
  ∧ (Nat.min 3 (phase b + turns Second schedule)
     ≤ phase (interleave rt schedule w a b).2)%nat.
Proof.
  revert w a b. unfold turns.
  induction schedule as [|[] rest IH]; intros w a b; simpl.
  - lia.
  - pose proof (issue_step_progress rt a w) as Hstep.
    destruct (issue_step rt a w) as [w' a']. simpl in Hstep.
    destruct (IH w' a' b) as [Ha Hb].
    rewrite filter_cons_False by done. split; lia.
  - pose proof (issue_step_progress rt b w) as Hstep.
    destruct (issue_step rt b w) as [w' b']. simpl in Hstep.
    destruct (IH w' a b') as [Ha Hb].
    rewrite filter_cons_False by done. split; lia.
Qed.

Lemma JSON_stringify_any_defined rt v :
  v ≠ VUndefined → JSON_stringify_any rt v = Some (JSON_stringify rt v).
Proof. by destruct v. Qed.

(** A turn of a task for [v], seen from the row of [v]. *)
Lemma issue_step_for rt v t w :
  truthy v = true → printable rt v → task_for v t →
  let w' := (issue_step rt t w).1 in
  let t' := (issue_step rt t w).2 in
  task_for v t'
  ∧ match credentials w !! sql_id rt v with
    | Some data =>
        credentials w' !! sql_id rt v = Some data
        ∧ (responded t = None → not_won t') ∧ (responded t ≠ None → t' = t)
    | None =>
        responded t = None →
        (responded t' = None ∧ credentials w' !! sql_id rt v = None)
        ∨ (won rt v t' ∧ is_Some (credentials w' !! sql_id rt v))
    end.
Proof.
  intros Hv [text Htext] Ht.
  destruct t as [credential|credentialId doc|credentialId record|res]; simpl in *.
  - destruct Ht as (props & -> & Hid).
    destruct (issue_begin_accepted rt (VObj props) w I) as (w' & Hrun & Hc & _).
    rewrite Hrun, (resolved_id_supplied rt props v w Hid Hv). simpl. rewrite Hc.
    split; [done|]. destruct (credentials w !! sql_id rt v); [by repeat split|by left].
  - subst credentialId.
    destruct (issue_check_spec rt v doc w) as (w' & Hrun & Hc & _).
    rewrite Hrun, (logged_printable _ _ _ _ Htext).
    destruct (credentials w !! sql_id rt v) eqn:Hrow; simpl; rewrite Hc, Hrow.
    + split; [done|]. split; [done|]. split; [by left|done].
    + split; [done|]. by left.
  - destruct Ht as [-> Hrecord].
    destruct (issue_store_spec rt v record w) as (w' & Hrun & Hc & _).
    rewrite Hrun, (JSON_stringify_any_defined _ _ Hrecord),
      (logged_printable _ _ _ _ Htext).
    rewrite (JSON_stringify_any_defined _ _ Hrecord) in Hc.
    destruct (credentials w !! sql_id rt v) eqn:Hrow; simpl; rewrite Hc.
    + split; [done|]. split; [done|]. split; [by right|done].
    + split; [done|]. right. split; [by eexists|].
      rewrite lookup_insert_eq. by eexists.
  - split; [done|]. destruct (credentials w !! sql_id rt v); [|done].
    split; [done|]. split; done.
Qed.

Lemma issue_step_won rt v t w : won rt v t → issue_step rt t w = (w, t).
Proof. by intros [timestamp ->]. Qed.

Lemma race_invariant_step rt v w a b :
  truthy v = true → printable rt v → race_invariant rt v w a b →
  race_invariant rt v (issue_step rt a w).1 (issue_step rt a w).2 b
  ∧ race_invariant rt v (issue_step rt b w).1 a (issue_step rt b w).2.
Proof.
  intros Hv Hp (Ha & Hb & Hrow).
  pose proof (issue_step_for rt v a w Hv Hp Ha) as (Ha' & Hsa).
  pose proof (issue_step_for rt v b w Hv Hp Hb) as (Hb' & Hsb).
  unfold race_invariant.
  destruct (credentials w !! sql_id rt v) as [data|] eqn:Hrow0.
  - destruct Hsa as (Hra & Hna & Hka), Hsb as (Hrb & Hnb & Hkb).
    rewrite Hra, Hrb.
    destruct Hrow as [[Hwa Hlb]|[Hwb Hla]].
    + rewrite (issue_step_won rt v a w Hwa). simpl. repeat split; try done.
      * by left.
      * left. split; [done|].
        destruct (responded b) eqn:Hresp; [rewrite Hkb; [done|congruence]|auto].
    + rewrite (issue_step_won rt v b w Hwb). simpl. repeat split; try done.
      * right. split; [done|].
        destruct (responded a) eqn:Hresp; [rewrite Hka; [done|congruence]|auto].
      * by right.
  - destruct Hrow as [Hpa Hpb]. split.
    + split; [done|]. split; [done|].
      destruct (Hsa Hpa) as [[Hp' ->]|(Hw & [data ->])]; [done|].
      left. split; [done|]. by destruct b.
    + split; [done|]. split; [done|].
      destruct (Hsb Hpb) as [[Hp' ->]|(Hw & [data ->])]; [done|].
      right. split; [done|]. by destruct a.
Qed.

Lemma race_invariant_interleave rt v schedule w a b :
  truthy v = true → printable rt v → race_invariant rt v w a b →
  race_invariant rt v (interleave rt schedule w a b).1.1
    (interleave rt schedule w a b).1.2 (interleave rt schedule w a b).2.
Proof.
  intros Hv Hp. revert w a b.
  induction schedule as [|[] rest IH]; intros w a b Hinv; simpl; [done| |].
  - destruct (race_invariant_step rt v w a b Hv Hp Hinv) as [H _].
    destruct (issue_step rt a w) as [w' a']. by apply IH.
  - destruct (race_invariant_step rt v w a b Hv Hp Hinv) as [_ H].
    destruct (issue_step rt b w) as [w' b']. by apply IH.
Qed.

(** Two requests carry the same truthy id, one that converts to a string and
    for which no row is stored, and are interleaved in any order.  At no
    point have both been answered 201.  Once each has had its three turns,
    both have responded, the row is stored, one of them was answered 201 and
    the other was turned down: by the 409 conflict when its [exists] check
    ran after the INSERT of the first, by the 500 of the [catch] block when
    its own INSERT hit the primary key. *)
Theorem concurrent_issue_one_winner rt (v a b : value) (w : World)
    (schedule : list Turn) :
  let conflict :=
    {| status := 409;
       body := VObj [("message", VStr "Credential already issued")] |} in
  let failure :=
    {| status := 500;
       body := VObj [("message", VStr "Internal server error")] |} in
  truthy v = true →
  printable rt v →
  carries v a →
  carries v b →
  credentials w !! sql_id rt v = None →
  let out := interleave rt schedule w (IssueReceived a) (IssueReceived b) in
  ¬ (won rt v out.1.2 ∧ won rt v out.2)
  ∧ ((3 ≤ turns First schedule)%nat → (3 ≤ turns Second schedule)%nat →
     ∃ ra rb,
       out.1.2 = IssueResponded ra ∧ out.2 = IssueResponded rb
       ∧ is_Some (credentials out.1.1 !! sql_id rt v)
       ∧ ((status ra = 201 ∧ (rb = conflict ∨ rb = failure))
          ∨ (status rb = 201 ∧ (ra = conflict ∨ ra = failure)))).
Proof.
  intros conflict failure Hv Hp Ha Hb Hrow out.
  assert (race_invariant rt v w (IssueReceived a) (IssueReceived b)) as Hinit.
  { unfold race_invariant. simpl. by rewrite Hrow. }
  pose proof (race_invariant_interleave rt v schedule w _ _ Hv Hp Hinit)
    as (_ & _ & Hinv).
  fold out in Hinv. split.
  - intros [[ta Hwa] [tb Hwb]]. rewrite Hwa, Hwb in Hinv.
    destruct (credentials out.1.1 !! sql_id rt v).
    + destruct Hinv as [[_ [H|H]]|[_ [H|H]]]; discriminate H.
    + by destruct Hinv.
  - intros Hfirst Hsecond.
    destruct (interleave_progress rt schedule w (IssueReceived a) (IssueReceived b))
      as [Hpa Hpb].
    fold out in Hpa, Hpb. simpl in Hpa, Hpb.
    destruct out.1.2 as [| | |ra] eqn:Hta; simpl in Hpa; try lia.
    destruct out.2 as [| | |rb] eqn:Htb; simpl in Hpb; try lia.
    exists ra, rb. split; [done|]. split; [done|].
    destruct (credentials out.1.1 !! sql_id rt v) as [data|].
    + split; [by eexists|].
      destruct Hinv as [[[ts Hw] Hl]|[[ts Hw] Hl]];
        injection Hw as ->; simpl in Hl; [by left|by right].
    + by destruct Hinv.
Qed.

(** C4 fails in the code. Two requests for the id "X" arrive together and
    take their turns alternately, so that both [exists] checks run before
    either INSERT.  The first is answered 201.  The INSERT of the second
    hits the primary key, and the request is answered by the 500 "Internal
    server error" of the [catch] block, not by the 409 "Credential already
    issued" of the [exists] check; no second row is written. *)
Theorem concurrent_issue_loser_gets_500 :
  let out :=
    interleave Reference.runtime [First; Second; First; Second; First; Second]
      Reference.started
      (IssueReceived Reference.jane_x) (IssueReceived Reference.jane_x) in
  out.1.2
  = IssueResponded
      {| status := 201;
         body := VObj [("message", VStr "Credential issued by worker-1");
                       ("worker", VStr "worker-1");
                       ("credentialId", VStr "X");
                       ("timestamp", VStr "2025-10-07T08:10:11.2Z")] |}
  ∧ out.2
    = IssueResponded
        {| status := 500;
           body := VObj [("message", VStr "Internal server error")] |}
  ∧ out.2
    ≠ IssueResponded
        {| status := 409;
           body := VObj [("message", VStr "Credential already issued")] |}
  ∧ size (credentials out.1.1) = 1.
Proof. vm_compute. by repeat split. Qed.

(** When the first request is handled to its end before the second starts,
    the second is answered by the 409. *)
Example concurrent_issue_serial_conflict :
  let out :=
    interleave Reference.runtime [First; First; First; Second; Second]
      Reference.started
      (IssueReceived Reference.jane_x) (IssueReceived Reference.jane_x) in
  status <$> responded out.1.2 = Some 201
  ∧ responded out.2 = Some (message_response 409 "Credential already issued").
Proof. vm_compute. by split. Qed.

(** ** The theorems at work on the reference runtime *)

(** C1 at work: the id "X" is issued, then requested twice more. *)
Lemma issue_at_most_once_witness :
  let w := (POST_issue Reference.runtime Reference.jane_x Reference.started).1 in
  let requests := [Reference.jane_x; VObj [("id", VStr "X")]] in
  truthy (VStr "X") = true
  ∧ ToString Reference.runtime (VStr "X") = Ok "X"
  ∧ Forall (carries (VStr "X")) requests
  ∧ (length (filter (λ res, succeeded res = true)
               (issue_all Reference.runtime requests w).2) ≤ 1)%nat
  ∧ credentials (issue_all Reference.runtime requests w).1 = credentials w.
Proof.
  intros w requests.
  assert (truthy (VStr "X") = true) as Hv by reflexivity.
  assert (ToString Reference.runtime (VStr "X") = Ok "X") as Htext by reflexivity.
  assert (Forall (carries (VStr "X")) requests) as Hall
    by (repeat constructor; eexists; (split; [reflexivity|reflexivity])).
  split; [exact Hv|]. split; [exact Htext|]. split; [exact Hall|].
  destruct (issue_at_most_once Reference.runtime (VStr "X") "X" w requests
              Hv Htext Hall) as (Hcount & _ & Hstored).
  split; [exact Hcount|].
  destruct (credentials w !! sql_id Reference.runtime (VStr "X")) as [data|] eqn:Hrow.
  - exact (proj1 (proj2 (Hstored data eq_refl))).
  - vm_compute in Hrow. discriminate Hrow.
Defined.

(** C2 at work: [{name: "Jane"}] is issued, another credential after it, and
    the generated id is verified. *)
Lemma issue_then_verify_witness :
  let out := POST_issue Reference.runtime Reference.jane Reference.started in
  let credentialId := VStr "00000000-0000-4000-8000-0" in
  let stored := VObj [("name", VStr "Jane"); ("id", credentialId)] in
  let record :=
    VObj [("credential", stored);
          ("worker", VStr "worker-1");
          ("timestamp", VStr "2025-10-07T08:10:11.0Z")] in
  let query := VObj [("id", credentialId)] in
  status out.2 = 201
  ∧ truthy credentialId = true
  ∧ JSON_parse Reference.runtime (JSON_stringify Reference.runtime record)
    = Some record
  ∧ carries credentialId query
  ∧ (POST_verify Reference.runtime query
       (issue_all Reference.runtime [Reference.jane_x] out.1).1).2
    = {| status := 200;
         body := VObj [("status", VStr "valid");
                       ("worker", VStr "worker-1");
                       ("timestamp", VStr "2025-10-07T08:10:11.0Z");
                       ("credential", stored)] |}.
Proof.
  intros out credentialId stored record query.
  assert (status out.2 = 201) as Hok by (vm_compute; reflexivity).
  assert (truthy credentialId = true) as Hv by reflexivity.
  assert (JSON_parse Reference.runtime (JSON_stringify Reference.runtime record)
          = Some record) as Hcodec by (vm_compute; reflexivity).
  assert (carries credentialId query) as Hq
    by (eexists; split; reflexivity).
  split; [exact Hok|]. split; [exact Hv|]. split; [exact Hcodec|].
  split; [exact Hq|].
  exact (proj1 (proj2 (proj2
    (issue_then_verify Reference.runtime [("name", VStr "Jane")]
       Reference.started [Reference.jane_x] query Hok Hv Hcodec Hq)))).
Defined.

(** C3 at work: the issuance service saves "X", then the verification
    service tries to. *)
Lemma save_inserts_or_fails_witness :
  let data := VObj [("worker", VStr "worker-1")] in
  let w1 := (Storage_save Reference.runtime Issuance (VStr "X") data
               Reference.started).1 in
  credentials Reference.started !! "X" = None
  ∧ data ≠ VUndefined
  ∧ (Storage_save Reference.runtime Issuance (VStr "X") data Reference.started).2
    = Ok tt
  ∧ (∃ e, (Storage_save Reference.runtime Verification (VStr "X") VNull w1).2
          = Throw e)
  ∧ credentials (Storage_save Reference.runtime Verification (VStr "X") VNull w1).1
      !! "X"
    = Some (JSON_stringify Reference.runtime data).
Proof.
  intros data w1.
  assert (credentials Reference.started !! "X" = None) as Hrow by reflexivity.
  assert (data ≠ VUndefined) as Hdata by discriminate.
  split; [exact Hrow|]. split; [exact Hdata|].
  destruct (proj2 (proj2 (proj2
    (save_inserts_or_fails Reference.runtime Issuance Verification "X" data VNull
       Reference.started))) Hrow Hdata) as (Hok & _ & Hthrow & Hkept).
  split; [exact Hok|]. split; [exact Hthrow|exact Hkept].
Defined.

(** Two requests for "X": both [exists] checks first, then both INSERTs. *)
Lemma concurrent_issue_one_winner_witness :
  let schedule := [First; Second; First; Second; First; Second] in
  let out :=
    interleave Reference.runtime schedule Reference.started
      (IssueReceived Reference.jane_x) (IssueReceived Reference.jane_x) in
  truthy (VStr "X") = true
  ∧ printable Reference.runtime (VStr "X")
  ∧ carries (VStr "X") Reference.jane_x
  ∧ credentials Reference.started !! sql_id Reference.runtime (VStr "X") = None
  ∧ (3 ≤ turns First schedule)%nat ∧ (3 ≤ turns Second schedule)%nat
  ∧ ¬ (won Reference.runtime (VStr "X") out.1.2
       ∧ won Reference.runtime (VStr "X") out.2)
  ∧ ∃ ra rb, out.1.2 = IssueResponded ra ∧ out.2 = IssueResponded rb.
Proof.
  intros schedule out.
  assert (truthy (VStr "X") = true) as Hv by reflexivity.
  assert (printable Reference.runtime (VStr "X")) as Hp
    by (exists "X"; reflexivity).
  assert (carries (VStr "X") Reference.jane_x) as Hc
    by (eexists; split; reflexivity).
  assert (credentials Reference.started !! sql_id Reference.runtime (VStr "X")
          = None) as Hrow by reflexivity.
  assert (3 ≤ turns First schedule)%nat as Hfirst by (vm_compute; lia).
  assert (3 ≤ turns Second schedule)%nat as Hsecond by (vm_compute; lia).
  destruct (concurrent_issue_one_winner Reference.runtime (VStr "X")
              Reference.jane_x Reference.jane_x Reference.started schedule
              Hv Hp Hc Hc Hrow) as [Hsafe Hlive].
  destruct (Hlive Hfirst Hsecond) as (ra & rb & Ha & Hb & _).
  repeat (split; [assumption|]). by exists ra, rb.
Defined.


(** C6 at work: a bare string, and an array on [POST /verify]. *)
Lemma malformed_body_rejected_witness :
  ¬ accepted (VStr "credential")
  ∧ POST_issue Reference.runtime (VStr "credential") Reference.started
    = (Reference.started, message_response 400 "Invalid credential format")
  ∧ POST_verify Reference.runtime (VArr [VStr "a"]) Reference.started
    = (Reference.started, message_response 400 "Credential ID is required").
Proof.
  assert (¬ accepted (VStr "credential")) as Hrej by (intros []).
  destruct (malformed_body_rejected Reference.runtime (VStr "credential")
              [VStr "a"] Reference.started Hrej) as (Hissue & _ & Harray & _).
  split; [exact Hrej|]. split; [exact Hissue|exact Harray].
Defined.

(** C9 at work: [{id: 0, name: "Jane"}]. *)
Lemma issue_falsy_id_replaced_witness :
  let props := [("id", VNum 0); ("name", VStr "Jane")] in
  assoc "id" props = Some (VNum 0)
  ∧ truthy (VNum 0) = false
  ∧ (issue_step Reference.runtime (IssueReceived (VObj props)) Reference.started).2
    = IssueAwaitExists (VStr "00000000-0000-4000-8000-0")
        (VObj [("id", VStr "00000000-0000-4000-8000-0"); ("name", VStr "Jane")]).
Proof.
  intros props.
  assert (assoc "id" props = Some (VNum 0)) as Hid by reflexivity.
  assert (truthy (VNum 0) = false) as Hv by reflexivity.
  split; [exact Hid|]. split; [exact Hv|].
  exact (proj1 (proj2
    (issue_falsy_id_replaced Reference.runtime props (VNum 0) Reference.started
       Hid Hv))).
Defined.

(** C10 at work: [{id: ""}]. *)
Lemma verify_falsy_id_rejected_witness :
  let props := [("id", VStr EmptyString)] in
  assoc "id" props = Some (VStr EmptyString)
  ∧ truthy (VStr EmptyString) = false
  ∧ POST_verify Reference.runtime (VObj props) Reference.started
    = (Reference.started, message_response 400 "Credential ID is required").
Proof.
  intros props.
  assert (assoc "id" props = Some (VStr EmptyString)) as Hid by reflexivity.
  assert (truthy (VStr EmptyString) = false) as Hv by reflexivity.
  split; [exact Hid|]. split; [exact Hv|].
  exact (proj1 (proj2 (proj2
    (verify_falsy_id_rejected Reference.runtime props (VStr EmptyString)
       Reference.started Hid Hv)))).
Defined.

(** C8 at work: the credential issued for [{name: "Jane"}] is verified. *)
Lemma verify_reads_only_witness :
  let w := (POST_issue Reference.runtime Reference.jane Reference.started).1 in
  let query := VObj [("id", VStr "00000000-0000-4000-8000-0")] in
  let record :=
    credential_record Reference.runtime
      (VObj [("name", VStr "Jane"); ("id", VStr "00000000-0000-4000-8000-0")])
      "2025-10-07T08:10:11.0Z" in
  printable Reference.runtime (VStr "00000000-0000-4000-8000-0")
  ∧ credentials w !! "00000000-0000-4000-8000-0"
    = Some (JSON_stringify Reference.runtime record)
  ∧ JSON_parse Reference.runtime (JSON_stringify Reference.runtime record)
    = Some record
  ∧ credentials (POST_verify Reference.runtime query w).1 = credentials w
  ∧ (POST_verify Reference.runtime query w).2
    = {| status := 200;
         body := VObj [("status", VStr "valid");
                       ("worker", VStr "worker-1");
                       ("timestamp", VStr "2025-10-07T08:10:11.0Z");
                       ("credential",
                        VObj [("name", VStr "Jane");
                              ("id", VStr "00000000-0000-4000-8000-0")])] |}.
Proof.
  intros w query record.
  assert (printable Reference.runtime (VStr "00000000-0000-4000-8000-0")) as Hp
    by (eexists; reflexivity).
  assert (credentials w !! "00000000-0000-4000-8000-0"
          = Some (JSON_stringify Reference.runtime record)) as Hrow
    by (vm_compute; reflexivity).
  assert (JSON_parse Reference.runtime (JSON_stringify Reference.runtime record)
          = Some record) as Hcodec by (vm_compute; reflexivity).
  destruct (verify_reads_only Reference.runtime query w)
    as (Hsame & _ & _ & Hcontent).
  split; [exact Hp|]. split; [exact Hrow|]. split; [exact Hcodec|].
  split; [exact Hsame|].
  exact (proj2 (Hcontent record record I eq_refl Hp Hrow Hcodec) eq_refl).
Defined.

(** * Further properties *)

(** ** Start-up *)

Lemma try_ports_started listen basePort i remaining port :
  (try_ports listen basePort i remaining).2 = Started port ↔
  ∃ k, (k < remaining)%nat
    ∧ port = (basePort + Z.of_nat (i + k))%Z
    ∧ listen port = Listening
    ∧ ∀ j, (j < k)%nat →
        listen (basePort + Z.of_nat (i + j))%Z = ListenError (Some "EADDRINUSE").
Proof.
  revert i. induction remaining as [|remaining IH]; intros i; simpl.
  - split; [done|]. intros (k & Hk & _). lia.
  - destruct (listen (basePort + Z.of_nat i)%Z) as [|code] eqn:Hhere.
    + simpl. split.
      * intros [= <-]. exists 0. rewrite Nat.add_0_r.
        split; [lia|]. split; [done|]. split; [done|]. intros j Hj. lia.
      * intros (k & Hk & -> & Hfree & Hbusy). destruct k as [|k].
        { by rewrite Nat.add_0_r. }
        specialize (Hbusy 0). rewrite Nat.add_0_r, Hhere in Hbusy.
        discriminate Hbusy. lia.
    + case_bool_decide as Hcode.
      * subst code. specialize (IH (S i)).
        destruct (try_ports listen basePort (S i) remaining) as [tried outcome].
        cbn [fst snd] in *. rewrite IH. split.
        -- intros (k & Hk & -> & Hfree & Hbusy). exists (S k).
           replace (i + S k) with (S i + k) by lia.
           split; [lia|]. split; [done|]. split; [done|].
           intros [|j] Hj; [by rewrite Nat.add_0_r|].
           replace (i + S j) with (S i + j) by lia. apply Hbusy. lia.
        -- intros (k & Hk & -> & Hfree & Hbusy). destruct k as [|k].
           { rewrite Nat.add_0_r, Hhere in Hfree. discriminate Hfree. }
           exists k. replace (S i + k) with (i + S k) by lia.
           split; [lia|]. split; [done|]. split; [done|].
           intros j Hj. replace (S i + j) with (i + S j) by lia. apply Hbusy. lia.
      * simpl. split; [done|].
        intros (k & Hk & -> & Hfree & Hbusy). destruct k as [|k].
        { rewrite Nat.add_0_r, Hhere in Hfree. discriminate Hfree. }
        specialize (Hbusy 0). rewrite Nat.add_0_r, Hhere in Hbusy.
        injection Hbusy as ->; [done|lia].
Qed.

Lemma try_ports_exited listen basePort i remaining code :
  (try_ports listen basePort i remaining).2 = Exited code ↔
  code = 1%Z
  ∧ ∃ k, (k ≤ remaining)%nat
      ∧ (∀ j, (j < k)%nat →
           listen (basePort + Z.of_nat (i + j))%Z = ListenError (Some "EADDRINUSE"))
      ∧ (k = remaining
         ∨ ∃ other, listen (basePort + Z.of_nat (i + k))%Z = ListenError other
                    ∧ other ≠ Some "EADDRINUSE").
Proof.
  revert i. induction remaining as [|remaining IH]; intros i; simpl.
  - split.
    + intros [= <-]. split; [done|]. exists 0. split; [lia|].
      split; [intros j Hj; lia|by left].
    + intros [-> _]. done.
  - destruct (listen (basePort + Z.of_nat i)%Z) as [|other] eqn:Hhere.
    + simpl. split; [done|].
      intros (_ & k & Hk & Hbusy & Hend). destruct k as [|k].
      * destruct Hend as [?|(other & Hother & _)]; [lia|].
        rewrite Nat.add_0_r, Hhere in Hother. discriminate Hother.
      * specialize (Hbusy 0). rewrite Nat.add_0_r, Hhere in Hbusy.
        discriminate Hbusy. lia.
    + case_bool_decide as Hcode.
      * subst other. specialize (IH (S i)).
        destruct (try_ports listen basePort (S i) remaining) as [tried outcome].
        cbn [fst snd] in *. rewrite IH. split.
        -- intros (-> & k & Hk & Hbusy & Hend). split; [done|]. exists (S k).
           split; [lia|]. split.
           ++ intros [|j] Hj; [by rewrite Nat.add_0_r|].
              replace (i + S j) with (S i + j) by lia. apply Hbusy. lia.
           ++ replace (i + S k) with (S i + k) by lia.
              destruct Hend as [->|?]; [by left|by right].
        -- intros (-> & k & Hk & Hbusy & Hend). split; [done|].
           destruct k as [|k].
           { destruct Hend as [?|(other & Hother & Hne)]; [lia|].
             rewrite Nat.add_0_r, Hhere in Hother. by injection Hother as <-. }
           exists k. split; [lia|]. split.
           ++ intros j Hj. replace (S i + j) with (i + S j) by lia.
              apply Hbusy. lia.
           ++ replace (S i + k) with (i + S k) by lia.
              destruct Hend as [?|?]; [left; lia|by right].
      * simpl. split.
        -- intros [= <-]. split; [done|]. exists 0. split; [lia|].
           split; [intros j Hj; lia|]. right. exists other.
           by rewrite Nat.add_0_r.
        -- intros [-> _]. done.
Qed.

(** The ports on which [app.listen] is called: from [basePort + i] upwards,
    up to the first that is not in use, and no further. *)
Lemma try_ports_tried listen basePort i remaining :
  ∃ n, (n ≤ remaining)%nat
    ∧ (try_ports listen basePort i remaining).1
      = (λ j, (basePort + Z.of_nat (i + j))%Z) <$> seq 0 n
    ∧ (∀ j, (S j < n)%nat →
         listen (basePort + Z.of_nat (i + j))%Z = ListenError (Some "EADDRINUSE"))
    ∧ (n = remaining
       ∧ (∀ j, (j < n)%nat →
            listen (basePort + Z.of_nat (i + j))%Z = ListenError (Some "EADDRINUSE"))
       ∨ ∃ k, n = S k
           ∧ listen (basePort + Z.of_nat (i + k))%Z
             ≠ ListenError (Some "EADDRINUSE")).
Proof.
  revert i. induction remaining as [|remaining IH]; intros i; simpl.
  - exists 0. split; [lia|]. split; [done|]. split; [intros j Hj; lia|].
    left. split; [done|]. intros j Hj. lia.
  - destruct (listen (basePort + Z.of_nat i)%Z) as [|code] eqn:Hhere.
    + exists 1. split; [lia|]. simpl. rewrite Nat.add_0_r. split; [done|].
      split; [intros j Hj; lia|]. right. exists 0.
      rewrite Nat.add_0_r, Hhere. by split.
    + case_bool_decide as Hcode.
      * subst code. destruct (IH (S i)) as (n & Hn & Htried & Hbusy & Hend).
        destruct (try_ports listen basePort (S i) remaining) as [tried outcome].
        cbn [fst snd] in *. exists (S n). split; [lia|]. split.
        { simpl. rewrite Nat.add_0_r. f_equal. rewrite Htried.
          rewrite <- fmap_S_seq, <- list_fmap_compose.
          apply list_fmap_ext. intros _ j _. simpl. f_equal. lia. }
        split.
        { intros [|j] Hj; [by rewrite Nat.add_0_r|].
          replace (i + S j) with (S i + j) by lia. apply Hbusy. lia. }
        destruct Hend as [[-> Hall]|(k & -> & Hk)].
        -- left. split; [done|].
           intros [|j] Hj; [by rewrite Nat.add_0_r|].
           replace (i + S j) with (S i + j) by lia. apply Hall. lia.
        -- right. exists (S k). split; [done|].
           by replace (i + S k) with (S i + k) by lia.
      * exists 1. split; [lia|]. simpl. rewrite Nat.add_0_r. split; [done|].
        split; [intros j Hj; lia|]. right. exists 0.
        rewrite Nat.add_0_r, Hhere. split; [done|]. congruence.
Qed.

Lemma main_spec engine this listen basePort w :
  main engine this listen basePort w
  = match open_error engine, exec_error engine with
    | Some _, _ => (w, Exited 1)
    | None, Some _ => (sent CreateTable (with_db this w), Exited 1)
    | None, None =>
        (sent CreateTable (with_db this w), (try_ports listen basePort 0 10).2)
    end.
Proof.
  unfold main, startWithPortFallback, bind, Storage_init, sql_create_table, ret.
  destruct (open_error engine); [done|]. by destruct (exec_error engine).
Qed.

(** Start-up ends listening on a port exactly when [init] went through (the
    file opened and the CREATE TABLE ran) and the port is the first of
    [basePort .. basePort + 9] on which [listen] succeeds, every port before
    it having reported EADDRINUSE. *)
Theorem start_listens_on_first_free_port engine this listen (basePort port : Z)
    (w : World) :
  (main engine this listen basePort w).2 = Started port ↔
  open_error engine = None
  ∧ exec_error engine = None
  ∧ ∃ i, (i < 10)%nat
      ∧ port = (basePort + Z.of_nat i)%Z
      ∧ listen port = Listening
      ∧ ∀ j, (j < i)%nat →
          listen (basePort + Z.of_nat j)%Z = ListenError (Some "EADDRINUSE").
Proof.
  rewrite main_spec.
  destruct (open_error engine) as [e|]; [by split; [|intros [? _]]|].
  destruct (exec_error engine) as [e|]; [by split; [|intros (_ & ? & _)]|].
  cbn [snd]. rewrite (try_ports_started listen basePort 0 10 port).
  split; [by intros ?|by intros (_ & _ & ?)].
Qed.

(** Start-up exits, always with code 1, exactly when [init] threw, or the
    ten ports are all in use, or, after ports in use only, one fails with
    another error.  An [init] that cannot open the file leaves the world as
    it was.  The ports on which [listen] is called are [basePort],
    [basePort + 1], ... up to the first that does not report EADDRINUSE, and
    none after it. *)
Theorem start_exits engine this listen (basePort : Z) (w : World) (code : Z) :
  ((main engine this listen basePort w).2 = Exited code ↔
   code = 1%Z
   ∧ (open_error engine ≠ None
      ∨ exec_error engine ≠ None
      ∨ ∃ i, (i ≤ 10)%nat
          ∧ (∀ j, (j < i)%nat →
               listen (basePort + Z.of_nat j)%Z = ListenError (Some "EADDRINUSE"))
          ∧ (i = 10
             ∨ ∃ other, listen (basePort + Z.of_nat i)%Z = ListenError other
                        ∧ other ≠ Some "EADDRINUSE")))
  ∧ (open_error engine ≠ None → main engine this listen basePort w = (w, Exited 1))
  ∧ ∃ n, (n ≤ 10)%nat
      ∧ (try_ports listen basePort 0 10).1
        = (λ j, (basePort + Z.of_nat j)%Z) <$> seq 0 n
      ∧ (∀ j, (S j < n)%nat →
           listen (basePort + Z.of_nat j)%Z = ListenError (Some "EADDRINUSE"))
      ∧ (n = 10
         ∨ ∃ k, n = S k
             ∧ listen (basePort + Z.of_nat k)%Z ≠ ListenError (Some "EADDRINUSE")).
Proof.
  split; [|split].
  - rewrite main_spec.
    destruct (open_error engine) as [e|].
    { cbn [snd]. split; [intros [= <-]; split; [done|by left]|by intros [-> _]]. }
    destruct (exec_error engine) as [e|].
    { cbn [snd].
      split; [intros [= <-]; split; [done|right; by left]|by intros [-> _]]. }
    cbn [snd]. rewrite (try_ports_exited listen basePort 0 10 code).
    split.
    + intros [-> H]. split; [done|]. right. by right.
    + intros [-> [H|[H|H]]]; [done|done|by split].
  - intros Hopen. rewrite main_spec. by destruct (open_error engine).
  - destruct (try_ports_tried listen basePort 0 10) as (n & Hn & Htried & Hbusy & Hend).
    exists n. split; [done|]. split; [done|]. split; [done|].
    destruct Hend as [[-> _]|(k & -> & Hk)]; [by left|right; by exists k].
Qed.

Lemma start_spec this listen basePort w :
  start this listen basePort w
  = (sent CreateTable (with_db this w), (try_ports listen basePort 0 10).2).
Proof. reflexivity. Qed.

(** ** The handles stay open *)

Lemma issue_step_db rt t w this :
  db this w = true → db this (issue_step rt t w).1 = true.
Proof.
  intros Hdb.
  destruct t as [credential|credentialId doc|credentialId record|res]; simpl.
  - destruct (decide (accepted credential)) as [Hacc|Hrej].
    + unfold try_catch, issue_begin. rewrite (guard_accepted _ Hacc).
      unfold bind, lift, ret, draw_uuid, get_prop.
      destruct credential; try done;
        match goal with |- context [truthy ?x] => destruct (truthy x) end;
        simpl; by destruct this.
    + unfold try_catch, issue_begin. by rewrite (guard_rejected _ Hrej).
  - run_handler.
    destruct (issuance_db w) eqn:Hi; simpl;
      destruct (credentials w !! sql_id rt credentialId); simpl;
      destruct (ToString rt credentialId); simpl;
      by destruct this.
  - run_handler.
    destruct (issuance_db w) eqn:Hi; simpl;
      destruct (JSON_stringify_any rt record); simpl;
      destruct (credentials w !! sql_id rt credentialId); simpl;
      destruct (ToString rt credentialId); simpl;
      by destruct this.
  - done.
Qed.

Lemma POST_issue_steps rt credential w :
  ∃ t1 t2,
    POST_issue rt credential w
    = ((issue_step rt t2 (issue_step rt t1 (issue_step rt (IssueReceived credential) w).1).1).1,
       (POST_issue rt credential w).2)
    ∧ t1 = (issue_step rt (IssueReceived credential) w).2
    ∧ t2 = (issue_step rt t1 (issue_step rt (IssueReceived credential) w).1).2.
Proof.
  eexists _, _. split; [|split; reflexivity].
  unfold POST_issue. simpl.
  destruct (try_catch (issue_begin rt credential) w) as [w1 [res|[id doc]]]; [done|].
  simpl.
  destruct (try_catch (issue_check rt id doc) w1) as [w2 [res|[id' record]]]; [done|].
  simpl.
  by destruct (try_catch (issue_store rt id' record) w2) as [w3 [res|[]]].
Qed.

Lemma POST_issue_db rt credential w this :
  db this w = true → db this (POST_issue rt credential w).1 = true.
Proof.
  intros Hdb. destruct (POST_issue_steps rt credential w) as (t1 & t2 & Hrun & _).
  rewrite Hrun. cbn [fst]. by do 3 apply issue_step_db.
Qed.

Lemma POST_issue_statements_open rt credential w :
  issuance_db w = true →
  ∃ sent_, statements (POST_issue rt credential w).1 = (statements w ++ sent_)%list
    ∧ CreateTable ∉ sent_.
Proof.
  intros Hdb. destruct (decide (accepted credential)) as [Hacc|Hrej].
  - destruct (POST_issue_accepted rt credential w Hacc) as (w' & Hrun & _ & Hs).
    rewrite Hrun. simpl. eexists. split; [exact Hs|].
    unfold opening. simpl. rewrite Hdb. simpl.
    destruct (credentials w !! _); intros Hin;
      repeat (apply elem_of_cons in Hin as [Hin|Hin]; [discriminate Hin|]);
      by apply elem_of_nil in Hin.
  - rewrite POST_issue_rejected by done. exists []. simpl.
    split; [by rewrite app_nil_r|apply not_elem_of_nil].
Qed.

(** Start-up initialises the storage before the server listens: it leaves
    the rows of the table as they are, and none of the requests to
    [POST /issue] handled afterwards sends a CREATE TABLE again. *)
Theorem start_then_issue rt listen (basePort : Z) (w : World) (requests : list value) :
  let w0 := (start Issuance listen basePort w).1 in
  credentials w0 = credentials w
  ∧ statements w0 = (statements w ++ [CreateTable])%list
  ∧ ∃ sent_,
      statements (issue_all rt requests w0).1 = (statements w0 ++ sent_)%list
      ∧ CreateTable ∉ sent_.
Proof.
  intros w0. split; [done|]. split; [done|].
  assert (issuance_db w0 = true) as Hdb by done.
  clearbody w0. revert w0 Hdb.
  induction requests as [|credential rest IH]; intros w0 Hdb; simpl.
  { exists []. split; [by rewrite app_nil_r|apply not_elem_of_nil]. }
  destruct (POST_issue_statements_open rt credential w0 Hdb) as (sent1 & Hs1 & Hno1).
  pose proof (POST_issue_db rt credential w0 Issuance Hdb) as Hdb1.
  destruct (POST_issue rt credential w0) as [w1 res]. simpl in *.
  destruct (IH w1 Hdb1) as (sent2 & Hs2 & Hno2).
  destruct (issue_all rt rest w1) as [w2 ress]. simpl in *.
  exists (sent1 ++ sent2)%list. split.
  - by rewrite Hs2, Hs1, app_assoc.
  - rewrite elem_of_app. by intros [?|?].
Qed.

(** ** Any requests, interleaved in any order *)

Lemma printable_undefined rt : printable rt VUndefined.
Proof. by exists "undefined". Qed.

Lemma issue_step_tally rt t w :
  (size (credentials w) + Nat.b2n (issued (Issuing (issue_step rt t w).2))
   ≤ size (credentials (issue_step rt t w).1) + Nat.b2n (issued (Issuing t)))%nat
  ∧ (printable rt (task_id t) →
     size (credentials (issue_step rt t w).1) + Nat.b2n (issued (Issuing t))
     = size (credentials w) + Nat.b2n (issued (Issuing (issue_step rt t w).2))
     ∧ printable rt (task_id (issue_step rt t w).2)).
Proof.
  destruct t as [credential|credentialId doc|credentialId record|res]; simpl.
  - destruct (decide (accepted credential)) as [Hacc|Hrej].
    + destruct (issue_begin_accepted rt credential w Hacc) as (w' & Hrun & Hc & _).
      rewrite Hrun. simpl. rewrite Hc. split; [done|]. intros Hp. split; [done|].
      by apply resolved_id_printable.
    + unfold try_catch, issue_begin. rewrite (guard_rejected _ Hrej). simpl.
      split; [done|]. intros _. split; [done|]. apply printable_undefined.
  - destruct (issue_check_spec rt credentialId doc w) as (w' & Hrun & Hc & _).
    rewrite Hrun. unfold logged.
    destruct (credentials w !! _); simpl; rewrite Hc.
    + destruct (ToString rt credentialId); simpl; (split; [done|]);
        intros _; (split; [done|]); apply printable_undefined.
    + split; [done|]. by intros Hp.
  - destruct (issue_store_spec rt credentialId record w) as (w' & Hrun & Hc & _).
    rewrite Hrun. unfold logged.
    destruct (JSON_stringify_any rt record) as [text|];
      destruct (credentials w !! sql_id rt credentialId) eqn:Hrow; simpl;
      rewrite Hc;
      try (split; [done|]; intros _; split; [done|]; apply printable_undefined).
    rewrite map_size_insert_None by done.
    destruct (ToString rt credentialId) as [s|e] eqn:Hs; unfold succeeded; simpl.
    + split; [lia|]. intros _. split; [lia|]. apply printable_undefined.
    + split; [lia|]. intros [s Hs']. congruence.
  - split; [done|]. intros _. split; [done|]. apply printable_undefined.
Qed.

Lemma issue_step_grows rt t w :
  credentials w ⊆ credentials (issue_step rt t w).1.
Proof.
  destruct (issue_step_rows rt t w)
    as [->|(id & record & text & _ & _ & Hnone & -> & _)];
    [done|]. by apply insert_subseteq.
Qed.

Lemma task_step_grows rt t w :
  credentials w ⊆ credentials (task_step rt t w).1.
Proof.
  destruct t as [t|t]; simpl.
  - pose proof (issue_step_grows rt t w). by destruct (issue_step rt t w).
  - pose proof (verify_step_rows rt t w) as H.
    destruct (verify_step rt t w). simpl in *. by rewrite H.
Qed.

Lemma task_step_tally rt t w :
  (size (credentials w) + Nat.b2n (issued (task_step rt t w).2)
   ≤ size (credentials (task_step rt t w).1) + Nat.b2n (issued t))%nat
  ∧ (issues_printable rt t →
     size (credentials (task_step rt t w).1) + Nat.b2n (issued t)
     = size (credentials w) + Nat.b2n (issued (task_step rt t w).2)
     ∧ issues_printable rt (task_step rt t w).2).
Proof.
  destruct t as [t|t]; simpl.
  - pose proof (issue_step_tally rt t w). by destruct (issue_step rt t w).
  - pose proof (verify_step_rows rt t w) as H.
    destruct (verify_step rt t w). simpl in *. by rewrite H.
Qed.

(** The number of requests of a pool answered 201. *)
Lemma issued_insert (pool : list Task) (i : nat) (t t' : Task) :
  pool !! i = Some t →
  length (filter (λ x, issued x = true) (<[i := t']> pool)) + Nat.b2n (issued t)
  = length (filter (λ x, issued x = true) pool) + Nat.b2n (issued t').
Proof.
  revert i. induction pool as [|x pool IH]; intros [|i] Hi; simplify_eq/=.
  - rewrite !filter_cons. destruct (issued t), (issued t'); simpl; lia.
  - specialize (IH i Hi). rewrite !filter_cons.
    destruct (decide (issued x = true)); simpl; lia.
Qed.

(** The table only grows: whatever requests to [POST /issue] and
    [POST /verify] are in flight, in whatever state, and in whatever order
    they are resumed, every row of the table is still there afterwards, with
    the same data. *)
Theorem serve_keeps_rows rt (schedule : list nat) (w : World) (pool : list Task) :
  credentials w ⊆ credentials (serve rt schedule w pool).1.
Proof.
  revert w pool. induction schedule as [|i rest IH]; intros w pool; simpl; [done|].
  destruct (pool !! i) as [t|]; [|apply IH].
  pose proof (task_step_grows rt t w) as Hstep.
  destruct (task_step rt t w) as [w' t']. simpl in Hstep.
  etrans; [exact Hstep|apply IH].
Qed.

(** A row behind every 201: over any run of the event loop, the table gains
    at least as many rows as requests come to be answered 201; and exactly
    as many when the ids of the requests to [POST /issue] convert to
    strings. *)
Theorem serve_rows_are_successes rt (schedule : list nat) (w : World) (pool : list Task) :
  (size (credentials w)
   + length (filter (λ t, issued t = true) (serve rt schedule w pool).2)
   ≤ size (credentials (serve rt schedule w pool).1)
     + length (filter (λ t, issued t = true) pool))%nat
  ∧ (Forall (issues_printable rt) pool →
     size (credentials (serve rt schedule w pool).1)
     + length (filter (λ t, issued t = true) pool)
     = size (credentials w)
       + length (filter (λ t, issued t = true) (serve rt schedule w pool).2)).
Proof.
  revert w pool. induction schedule as [|i rest IH]; intros w pool; simpl; [done|].
  destruct (pool !! i) as [t|] eqn:Hi; [|apply IH].
  pose proof (task_step_tally rt t w) as [Hstep Hexact].
  destruct (task_step rt t w) as [w' t']. simpl in Hstep, Hexact.
  destruct (IH w' (<[i := t']> pool)) as [IH1 IH2].
  pose proof (issued_insert pool i t t' Hi). split; [lia|].
  intros Hpool.
  destruct Hexact as [Heq Hp']; [by eapply Forall_lookup_1|].
  specialize (IH2 (Forall_insert _ _ _ _ Hpool Hp')). lia.
Qed.

(** The theorem at work: a request whose id is the object [{toString: 1}]
    inserts its row and is then answered 500. *)
Lemma serve_rows_are_successes_witness :
  let pool := [Issuing (IssueReceived Reference.jane_x);
               Issuing (IssueReceived
                          (VObj [("id", VObj [("toString", VNum 1)])]))] in
  let out := serve Reference.runtime [0; 1; 1; 0; 1; 0] Reference.started pool in
  size (credentials out.1) = 2
  ∧ length (filter (λ t, issued t = true) out.2) = 1
  ∧ (size (credentials Reference.started)
     + length (filter (λ t, issued t = true) out.2)
     ≤ size (credentials out.1)
       + length (filter (λ t, issued t = true) pool))%nat.
Proof.
  intros pool out.
  split; [vm_compute; reflexivity|]. split; [vm_compute; reflexivity|].
  exact (proj1 (serve_rows_are_successes Reference.runtime [0; 1; 1; 0; 1; 0]
                  Reference.started pool)).
Defined.

Lemma task_step_sound rt t w :
  task_sound rt t →
  (∀ key data, credentials w !! key = Some data → issued_row rt key data) →
  task_sound rt (task_step rt t w).2
  ∧ ∀ key data,
      credentials (task_step rt t w).1 !! key = Some data → issued_row rt key data.
Proof.
  intros Ht Hrows. destruct t as [t|t]; simpl.
  - destruct t as [credential|credentialId doc|credentialId record|res]; simpl in *.
    + destruct (decide (accepted credential)) as [Hacc|Hrej].
      * destruct (issue_begin_accepted rt credential w Hacc) as (w' & Hrun & Hc & _).
        rewrite Hrun. simpl. rewrite Hc. split; [|done].
        eexists. split; [done|]. apply assoc_assign_eq.
      * unfold try_catch, issue_begin. by rewrite (guard_rejected _ Hrej).
    + destruct (issue_check_spec rt credentialId doc w) as (w' & Hrun & Hc & _).
      rewrite Hrun. destruct Ht as (props & -> & Hid).
      destruct (credentials w !! _); simpl; rewrite Hc; (split; [|done]); [done|].
      by eexists _, _.
    + destruct (issue_store_spec rt credentialId record w) as (w' & Hrun & Hc & _).
      rewrite Hrun. destruct Ht as (props & timestamp & -> & Hid).
      simpl in Hc |- *.
      destruct (credentials w !! sql_id rt credentialId) eqn:Hrow; simpl; rewrite Hc;
        (split; [done|]); [done|].
      intros key data. rewrite lookup_insert. case_decide as Hkey.
      * intros [= <-]. subst key. by eexists _, _, _.
      * apply Hrows.
    + done.
  - pose proof (verify_step_rows rt t w) as Hc.
    destruct (verify_step rt t w) as [w' t']. simpl in *. by rewrite Hc.
Qed.

(** Every row is self-describing: started with rows that [POST /issue]
    wrote (or with none) and with requests in the state the handlers put them
    in, the event loop only ever leaves rows that are the serialised record
    of a payload whose own [id] is the id the row is stored under. *)
Theorem serve_rows_self_describing rt (schedule : list nat) (w : World)
    (pool : list Task) :
  Forall (task_sound rt) pool →
  (∀ key data, credentials w !! key = Some data → issued_row rt key data) →
  Forall (task_sound rt) (serve rt schedule w pool).2
  ∧ ∀ key data,
      credentials (serve rt schedule w pool).1 !! key = Some data →
      issued_row rt key data.
Proof.
  revert w pool. induction schedule as [|i rest IH]; intros w pool Hpool Hrows;
    simpl; [done|].
  destruct (pool !! i) as [t|] eqn:Hi; [|by apply IH].
  destruct (task_step_sound rt t w) as [Ht' Hrows']; [|done|].
  { by eapply Forall_lookup_1. }
  destruct (task_step rt t w) as [w' t']. simpl in *.
  apply IH; [by apply Forall_insert|done].
Qed.

(** The theorem at work: two requests, one with an id and one without. *)
Lemma serve_rows_self_describing_witness :
  let pool := [Issuing (IssueReceived Reference.jane_x);
               Issuing (IssueReceived Reference.jane)] in
  let out := serve Reference.runtime [0; 1; 1; 0; 1; 0] Reference.started pool in
  Forall (task_sound Reference.runtime) pool
  ∧ (∀ key data, credentials Reference.started !! key = Some data →
                 issued_row Reference.runtime key data)
  ∧ size (credentials out.1) = 2
  ∧ ∀ key data, credentials out.1 !! key = Some data →
                issued_row Reference.runtime key data.
Proof.
  intros pool out.
  assert (Forall (task_sound Reference.runtime) pool) as Hpool
    by (repeat constructor).
  assert (∀ key data, credentials Reference.started !! key = Some data →
                      issued_row Reference.runtime key data) as Hrows
    by (intros key data Hrow; change (credentials Reference.started) with (∅ : gmap string string) in Hrow;
        rewrite lookup_empty in Hrow; discriminate Hrow).
  split; [exact Hpool|]. split; [exact Hrows|]. split; [vm_compute; reflexivity|].
  exact (proj2 (serve_rows_self_describing Reference.runtime [0; 1; 1; 0; 1; 0]
                  Reference.started pool Hpool Hrows)).
Defined.


(** ** Generated ids *)

Lemma issue_begin_draws rt credential w :
  accepted credential →
  uuid_draws (try_catch (issue_begin rt credential) w).1
  = if truthy (supplied_id credential) then uuid_draws w else S (uuid_draws w).
Proof.
  intros Hacc. unfold try_catch, issue_begin. rewrite (guard_accepted _ Hacc).
  unfold supplied_id, bind, lift, ret, draw_uuid, get_prop.
  destruct credential; try done;
    match goal with |- context [truthy ?x] => by destruct (truthy x) end.
Qed.

Lemma POST_issue_counters rt credential w :
  accepted credential →
  uuid_draws (POST_issue rt credential w).1
  = (if truthy (supplied_id credential) then uuid_draws w else S (uuid_draws w))
  ∧ clock_reads (POST_issue rt credential w).1
    = match credentials w !! sql_id rt (resolved_id rt credential w),
            ToString rt (resolved_id rt credential w) with
      | Some _, _ => clock_reads w
      | None, Ok _ => S (S (clock_reads w))
      | None, Throw _ => S (clock_reads w)
      end.
Proof.
  intros Hacc. unfold POST_issue.
  pose proof (issue_begin_draws rt credential w Hacc) as Hu1.
  destruct (issue_begin_accepted rt credential w Hacc)
    as (w1 & Hrun1 & Hc1 & _ & _ & Hk1 & _).
  rewrite Hrun1 in *. simpl in Hu1.
  destruct (issue_check_spec rt (resolved_id rt credential w)
              (VObj (assign "id" (resolved_id rt credential w) (own_props credential))) w1)
    as (w2 & Hrun2 & Hc2 & _ & _ & Hu2 & Hk2).
  rewrite Hrun2. rewrite Hc1 in *.
  destruct (credentials w !! sql_id rt (resolved_id rt credential w)) eqn:Hrow; simpl.
  - split; congruence.
  - match goal with |- context [issue_store rt ?i ?r] =>
      destruct (issue_store_spec rt i r w2) as (w3 & Hrun3 & _ & _ & _ & Hu3 & Hk3)
    end.
    unfold credential_record in Hrun3. simpl in Hrun3.
    rewrite Hc2, Hrow in Hrun3, Hk3. unfold credential_record. rewrite Hrun3.
    simpl in Hk3 |- *.
    split; [congruence|]. rewrite Hk3, Hk2, Hk1.
    by destruct (ToString rt (resolved_id rt credential w)).
Qed.

(** A request without a usable id is issued under the next UUID and takes
    exactly one draw; when that UUID already names a row, the answer is the
    409 and the table is as before: there is no second draw. *)
Theorem issue_generated_id_taken rt (credential : value) (w : World) (data : string) :
  accepted credential →
  truthy (supplied_id credential) = false →
  credentials w !! uuidv4 rt (uuid_draws w) = Some data →
  (POST_issue rt credential w).2 = message_response 409 "Credential already issued"
  ∧ credentials (POST_issue rt credential w).1 = credentials w
  ∧ uuid_draws (POST_issue rt credential w).1 = S (uuid_draws w).
Proof.
  intros Hacc Hid Hrow.
  destruct (POST_issue_counters rt credential w Hacc) as [Hu _].
  destruct (POST_issue_accepted rt credential w Hacc) as (w' & Hrun & Hc & _).
  unfold resolved_id in Hrun, Hc. rewrite Hid in Hrun, Hc, Hu. simpl in Hrun, Hc.
  rewrite Hrow in Hrun, Hc. rewrite Hrun in *. by simpl in *.
Qed.

Lemma issue_generated_id_taken_witness :
  let w := (POST_issue Reference.runtime
              (VObj [("id", VStr "00000000-0000-4000-8000-0")]) Reference.started).1 in
  accepted Reference.jane
  ∧ truthy (supplied_id Reference.jane) = false
  ∧ is_Some (credentials w !! uuidv4 Reference.runtime (uuid_draws w))
  ∧ (POST_issue Reference.runtime Reference.jane w).2
    = message_response 409 "Credential already issued".
Proof.
  intros w.
  assert (accepted Reference.jane) as Hacc by exact I.
  assert (truthy (supplied_id Reference.jane) = false) as Hid by reflexivity.
  destruct (credentials w !! uuidv4 Reference.runtime (uuid_draws w))
    as [data|] eqn:Hrow; [|vm_compute in Hrow; discriminate Hrow].
  split; [exact Hacc|]. split; [exact Hid|]. split; [by eexists|].
  exact (proj1 (issue_generated_id_taken Reference.runtime Reference.jane w data
                  Hacc Hid Hrow)).
Defined.

(** Requests without a usable id, handled one after the other: when the
    UUIDs drawn for them are pairwise different and name no row yet, every
    request is answered 201, the i-th under the i-th UUID drawn, and the
    table gains one row per request. *)
Theorem issue_generated_ids rt (requests : list value) (w : World) :
  Forall (λ credential, accepted credential
                        ∧ truthy (supplied_id credential) = false) requests →
  (∀ i, (i < length requests)%nat →
        credentials w !! uuidv4 rt (uuid_draws w + i) = None) →
  (∀ i j, (i < j < length requests)%nat →
          uuidv4 rt (uuid_draws w + i) ≠ uuidv4 rt (uuid_draws w + j)) →
  (issue_all rt requests w).2
  = imap (λ i _, issued_response rt (VStr (uuidv4 rt (uuid_draws w + i)))
                   (toISOString rt (clock_reads w + 2 * i + 1))) requests
  ∧ size (credentials (issue_all rt requests w).1)
    = size (credentials w) + length requests.
Proof.
  intros Hall. revert w.
  induction Hall as [|credential rest [Hacc Hid] _ IH]; intros w Hfresh Hdiff; simpl.
  { split; [done|lia]. }
  destruct (POST_issue_counters rt credential w Hacc) as [Hu Hk].
  destruct (POST_issue_accepted rt credential w Hacc) as (w1 & Hrun & Hc & _).
  unfold resolved_id in Hrun, Hc, Hk. rewrite Hid in Hrun, Hc, Hu, Hk.
  simpl in Hrun, Hc, Hk.
  pose proof (Hfresh 0 ltac:(simpl; lia)) as Hfirst. rewrite Nat.add_0_r in Hfirst.
  rewrite Hfirst in Hrun, Hc, Hk. rewrite Hrun in *. simpl in Hu, Hk.
  destruct (IH w1) as [Hress Hsize].
  - intros i Hi. rewrite Hu, Hc.
    replace (S (uuid_draws w) + i) with (uuid_draws w + S i) by lia.
    rewrite lookup_insert_ne.
    + apply Hfresh. simpl. lia.
    + pose proof (Hdiff 0 (S i) ltac:(simpl; lia)) as Hne.
      by rewrite Nat.add_0_r in Hne.
  - intros i j Hij. rewrite Hu.
    replace (S (uuid_draws w) + i) with (uuid_draws w + S i) by lia.
    replace (S (uuid_draws w) + j) with (uuid_draws w + S j) by lia.
    apply Hdiff. simpl. lia.
  - destruct (issue_all rt rest w1) as [w2 ress]. simpl in *.
    split.
    + rewrite Hress, Hu, Hk. f_equal.
      * replace (uuid_draws w + 0) with (uuid_draws w) by lia.
        by replace (clock_reads w + 0 + 1) with (S (clock_reads w)) by lia.
      * apply imap_ext. intros i x _. simpl.
        replace (S (uuid_draws w + i)) with (uuid_draws w + S i) by lia.
        by replace (S (S (clock_reads w + (i + (i + 0)) + 1)))
          with (clock_reads w + S (i + S (i + 0)) + 1) by lia.
    + rewrite Hsize, Hc, map_size_insert_None by done. lia.
Qed.

Lemma issue_generated_ids_witness :
  let requests := [Reference.jane; VArr []; VObj [("id", VNum 0)]] in
  Forall (λ credential, accepted credential
                        ∧ truthy (supplied_id credential) = false) requests
  ∧ size (credentials (issue_all Reference.runtime requests Reference.started).1) = 3.
Proof.
  intros requests.
  assert (Forall (λ credential, accepted credential
                                ∧ truthy (supplied_id credential) = false) requests)
    as Hall by (repeat constructor).
  split; [exact Hall|].
  refine (proj2 (issue_generated_ids Reference.runtime requests Reference.started
                   Hall _ _)).
  - intros i Hi. reflexivity.
  - intros i j Hij. simpl in Hij.
    assert (i = 0 ∧ (j = 1 ∨ j = 2) ∨ i = 1 ∧ j = 2) as Hcases by lia.
    destruct Hcases as [[-> [->| ->]]|[-> ->]]; vm_compute; discriminate.
Defined.

(** ** What [POST /verify] makes of a row *)

(** For an id that converts to a string, the answer depends on the text of
    the row alone: text that [JSON.parse] rejects gives the 500 of the
    [catch] block; text of a falsy value ([null], [false], [0], the empty
    string) gives the 404 "Credential not found" although the row exists;
    any other text gives the 200 with the properties [worker], [timestamp]
    and [credential] of the value, [undefined] where it has none. *)
Theorem verify_by_row_text rt (credential : value) (w : World) (data : string) :
  accepted credential →
  truthy (supplied_id credential) = true →
  printable rt (supplied_id credential) →
  credentials w !! sql_id rt (supplied_id credential) = Some data →
  (POST_verify rt credential w).2
  = match JSON_parse rt data with
    | None =>
        {| status := 500;
           body := VObj [("message", VStr "Internal server error")] |}
    | Some record =>
        if truthy record then
          {| status := 200;
             body :=
               VObj [("status", VStr "valid");
                     ("worker",
                      default VUndefined (assoc "worker" (own_props record)));
                     ("timestamp",
                      default VUndefined (assoc "timestamp" (own_props record)));
                     ("credential",
                      default VUndefined (assoc "credential" (own_props record)))] |}
        else
          {| status := 404;
             body := VObj [("status", VStr "invalid");
                           ("message", VStr "Credential not found")] |}
    end.
Proof.
  intros Hacc Hid [text Htext] Hrow.
  destruct (POST_verify_accepted rt credential w Hacc Hid) as (w' & Hrun & _).
  rewrite Hrun, Hrow, (logged_printable _ _ _ _ Htext). reflexivity.
Qed.

(** The theorem at work: a row with the text [null]. *)
Lemma verify_by_row_text_witness :
  let w := with_credentials {["X" := "null"]} Reference.started in
  let query := VObj [("id", VStr "X")] in
  accepted query
  ∧ truthy (supplied_id query) = true
  ∧ printable Reference.runtime (supplied_id query)
  ∧ credentials w !! sql_id Reference.runtime (supplied_id query) = Some "null"
  ∧ (POST_verify Reference.runtime query w).2
    = {| status := 404;
         body := VObj [("status", VStr "invalid");
                       ("message", VStr "Credential not found")] |}.
Proof.
  intros w query.
  assert (accepted query) as Hacc by exact I.
  assert (truthy (supplied_id query) = true) as Hid by reflexivity.
  assert (printable Reference.runtime (supplied_id query)) as Hp
    by (exists "X"; reflexivity).
  assert (credentials w !! sql_id Reference.runtime (supplied_id query)
          = Some "null") as Hrow by (vm_compute; reflexivity).
  split; [exact Hacc|]. split; [exact Hid|]. split; [exact Hp|].
  split; [exact Hrow|].
  exact (verify_by_row_text Reference.runtime query w "null" Hacc Hid Hp Hrow).
Defined.


(** ** The storage layer, across the two services *)

Lemma Storage_list_spec engine this w :
  ∃ w', Storage_list engine this w
        = (w', match all_error engine with
               | Some message => Throw message
               | None => Ok ((map_to_list (credentials w)).*1)
               end)
    ∧ credentials w' = credentials w
    ∧ statements w' = (statements w ++ opening this w ++ [SelectAllIds])%list.
Proof.
  unfold opening. run_handler.
  destruct (db this w); simpl; destruct (all_error engine); simpl; eexists;
    (split; [reflexivity|]); simpl;
    rewrite <- ?app_assoc; by destruct this.
Qed.

(** What one service saves, the other finds: after [save(id, data)] of a
    [data] other than [undefined] on an id without a row, [exists(id)] is
    true, [get(id)] (which logs the id, and so needs one that converts to a
    string) is what [JSON.parse] makes of the serialised [data], [list()]
    has the id, and every other id is as before, through either handle. *)
Theorem save_then_read rt (this that : Service) (id data : value) (w : World) :
  credentials w !! sql_id rt id = None →
  data ≠ VUndefined →
  printable rt id →
  let w1 := (Storage_save rt this id data w).1 in
  (Storage_save rt this id data w).2 = Ok tt
  ∧ (Storage_exists rt that id w1).2 = Ok true
  ∧ (Storage_get rt that id w1).2
    = match JSON_parse rt (JSON_stringify rt data) with
      | Some v => Ok v
      | None => Throw "Unexpected token in JSON"
      end
  ∧ (∃ ids, (Storage_list healthy that w1).2 = Ok ids ∧ sql_id rt id ∈ ids)
  ∧ ∀ other, sql_id rt other ≠ sql_id rt id →
      (Storage_exists rt that other w1).2 = (Storage_exists rt that other w).2
      ∧ (Storage_get rt that other w1).2 = (Storage_get rt that other w).2.
Proof.
  intros Hrow Hdata [text Htext] w1.
  destruct (Storage_save_spec rt this id data w)
    as (w' & outcome & Hrun & _ & _ & _ & Hsave).
  rewrite (JSON_stringify_any_defined _ _ Hdata), Hrow in Hsave.
  destruct Hsave as (_ & -> & Hc).
  subst w1. rewrite Hrun. simpl.
  assert (credentials w' !! sql_id rt id = Some (JSON_stringify rt data)) as Hnew
    by (rewrite Hc; apply lookup_insert_eq).
  split; [done|]. split.
  { destruct (Storage_exists_spec rt that id w') as (w2 & -> & _). by rewrite Hnew. }
  split.
  { destruct (Storage_get_spec rt that id w') as (w2 & -> & _).
    by rewrite Htext, Hnew. }
  split.
  { destruct (Storage_list_spec healthy that w') as (w2 & -> & _).
    eexists. split; [done|].
    apply list_elem_of_fmap. exists (sql_id rt id, JSON_stringify rt data).
    split; [done|]. by apply elem_of_map_to_list. }
  intros other Hother.
  assert (credentials w' !! sql_id rt other = credentials w !! sql_id rt other)
    as Hsame by (rewrite Hc; by apply lookup_insert_ne).
  split.
  - destruct (Storage_exists_spec rt that other w') as (w2 & -> & _).
    destruct (Storage_exists_spec rt that other w) as (w3 & -> & _).
    by rewrite Hsame.
  - destruct (Storage_get_spec rt that other w') as (w2 & -> & _).
    destruct (Storage_get_spec rt that other w) as (w3 & -> & _).
    by rewrite Hsame.
Qed.

Lemma save_then_read_witness :
  let w1 := (Storage_save Reference.runtime Issuance (VStr "X") Reference.jane
               Reference.started).1 in
  credentials Reference.started !! "X" = None
  ∧ Reference.jane ≠ VUndefined
  ∧ printable Reference.runtime (VStr "X")
  ∧ (Storage_exists Reference.runtime Verification (VStr "X") w1).2 = Ok true
  ∧ (Storage_get Reference.runtime Verification (VStr "X") w1).2
    = Ok Reference.jane.
Proof.
  intros w1.
  assert (credentials Reference.started !! "X" = None) as Hrow by reflexivity.
  assert (Reference.jane ≠ VUndefined) as Hdata by discriminate.
  assert (printable Reference.runtime (VStr "X")) as Hp
    by (exists "X"; reflexivity).
  destruct (save_then_read Reference.runtime Issuance Verification (VStr "X")
              Reference.jane Reference.started Hrow Hdata Hp)
    as (_ & Hexists & Hget & _).
  split; [exact Hrow|]. split; [exact Hdata|]. split; [exact Hp|].
  split; [exact Hexists|]. exact Hget.
Defined.

(** [save] of [undefined]: [JSON.stringify(undefined)] is [undefined], the
    column [data] is NOT NULL, the INSERT is rejected whether or not the id
    has a row, [save] throws and the table is as before. *)
Theorem save_undefined_rejected rt (this : Service) (id : value) (w : World) :
  (∃ e, (Storage_save rt this id VUndefined w).2 = Throw e)
  ∧ credentials (Storage_save rt this id VUndefined w).1 = credentials w
  ∧ statements (Storage_save rt this id VUndefined w).1
    = (statements w ++ opening this w
         ++ [InsertCredentialNull (sql_id rt id)])%list.
Proof.
  destruct (Storage_save_spec rt this id VUndefined w)
    as (w' & outcome & Hrun & _ & _ & _ & Hsave).
  rewrite Hrun. simpl in *. tauto.
Qed.


(** ** The scripts *)

Lemma insert_cred_cjs_spec rt argv2 argv3 env_WORKER w :
  let id := or_else argv2 "CRED-9123450" in
  let worker := or_else argv3 (or_else env_WORKER "manual-insert") in
  let text :=
    JSON_stringify rt (manual_payload id worker (toISOString rt (clock_reads w))) in
  credentials (insert_cred_cjs rt argv2 argv3 env_WORKER w)
  = <[id := text]> (credentials w)
  ∧ statements (insert_cred_cjs rt argv2 argv3 env_WORKER w) = statements w
  ∧ verification_db (insert_cred_cjs rt argv2 argv3 env_WORKER w) = verification_db w
  ∧ issuance_db (insert_cred_cjs rt argv2 argv3 env_WORKER w) = issuance_db w.
Proof. done. Qed.

(** The script overwrites: whatever row was stored under the id, one issued
    by the service included, a verification of the id after the script is
    answered with the script's record (its worker, its timestamp, its John
    Doe credential), provided [JSON.parse] reads the script's text back; the
    other rows are as before. *)
Theorem insert_cred_then_verify rt argv2 argv3 env_WORKER (query : value) (w : World) :
  let id := or_else argv2 "CRED-9123450" in
  let worker := or_else argv3 (or_else env_WORKER "manual-insert") in
  let timestamp := toISOString rt (clock_reads w) in
  let record := manual_payload id worker timestamp in
  let w1 := insert_cred_cjs rt argv2 argv3 env_WORKER w in
  carries (VStr id) query →
  JSON_parse rt (JSON_stringify rt record) = Some record →
  (POST_verify rt query w1).2
  = valid_response (VStr worker) (VStr timestamp)
      (VObj [("id", VStr id);
             ("name", VStr "John Doe");
             ("role", VStr "Senior Developer");
             ("department", VStr "Engineering");
             ("issueDate", VStr "2025-10-07T08:10:11.611Z")])
  ∧ ∀ other, other ≠ id → credentials w1 !! other = credentials w !! other.
Proof.
  intros id worker timestamp record w1 Hq Hcodec.
  destruct (insert_cred_cjs_spec rt argv2 argv3 env_WORKER w) as (Hc & _).
  fold id worker timestamp record w1 in Hc. clearbody w1.
  assert (id ≠ EmptyString) as Hne.
  { subst id. unfold or_else. destruct argv2 as [s|]; [|done].
    destruct (String.eqb s EmptyString) eqn:E; [done|]. by apply String.eqb_neq. }
  destruct (supplied_id_carries _ _ Hq) as [Hacc Hid].
  split.
  - destruct (POST_verify_accepted rt query w1 Hacc) as (w2 & Hrun & _).
    { rewrite Hid. simpl. apply negb_true_iff. by apply String.eqb_neq. }
    rewrite Hrun, Hid. simpl. rewrite Hc, lookup_insert_eq. simpl.
    by rewrite Hcodec.
  - intros other Hother. rewrite Hc. by apply lookup_insert_ne.
Qed.

(** The theorem at work: "X" is issued by the service, then overwritten by
    [node insert-cred.cjs X], then verified. *)
Lemma insert_cred_then_verify_witness :
  let w := (POST_issue Reference.runtime Reference.jane_x Reference.started).1 in
  let query := VObj [("id", VStr "X")] in
  let w1 := insert_cred_cjs Reference.runtime (Some "X") None None w in
  carries (VStr "X") query
  ∧ is_Some (credentials w !! "X")
  ∧ get_prop (body (POST_verify Reference.runtime query w1).2) "worker"
    = Ok (VStr "manual-insert").
Proof.
  intros w query w1.
  assert (carries (VStr "X") query) as Hq by (eexists; split; reflexivity).
  assert (JSON_parse Reference.runtime
            (JSON_stringify Reference.runtime
               (manual_payload "X" "manual-insert"
                  (toISOString Reference.runtime (clock_reads w))))
          = Some (manual_payload "X" "manual-insert"
                    (toISOString Reference.runtime (clock_reads w)))) as Hcodec
    by (vm_compute; reflexivity).
  split; [exact Hq|]. split; [vm_compute; by eexists|].
  subst w1. cbv zeta.
  rewrite (proj1 (insert_cred_then_verify Reference.runtime (Some "X") None None
                    query w Hq Hcodec)).
  reflexivity.
Defined.

(** After the script, the service refuses to issue the script's id: a
    request carrying it is answered by the 409 and the script's row stays. *)
Theorem insert_cred_then_issue rt argv2 argv3 env_WORKER (credential : value) (w : World) :
  let id := or_else argv2 "CRED-9123450" in
  let w1 := insert_cred_cjs rt argv2 argv3 env_WORKER w in
  carries (VStr id) credential →
  (POST_issue rt credential w1).2 = message_response 409 "Credential already issued"
  ∧ credentials (POST_issue rt credential w1).1 = credentials w1.
Proof.
  intros id w1 Hc.
  destruct (insert_cred_cjs_spec rt argv2 argv3 env_WORKER w) as (Hrows & _).
  fold id w1 in Hrows. clearbody w1.
  assert (id ≠ EmptyString) as Hne.
  { subst id. unfold or_else. destruct argv2 as [s|]; [|done].
    destruct (String.eqb s EmptyString) eqn:E; [done|]. by apply String.eqb_neq. }
  destruct (POST_issue_conflict rt (VStr id) id credential w1
              (JSON_stringify rt
                 (manual_payload id (or_else argv3 (or_else env_WORKER "manual-insert"))
                    (toISOString rt (clock_reads w)))))
    as (w2 & Hrun & Hsame & _).
  - simpl. apply negb_true_iff. by apply String.eqb_neq.
  - done.
  - done.
  - simpl. rewrite Hrows. apply lookup_insert_eq.
  - by rewrite Hrun.
Qed.

Lemma insert_cred_then_issue_witness :
  let w1 := insert_cred_cjs Reference.runtime None None None Reference.started in
  let credential := VObj [("id", VStr "CRED-9123450")] in
  carries (VStr "CRED-9123450") credential
  ∧ (POST_issue Reference.runtime credential w1).2
    = message_response 409 "Credential already issued".
Proof.
  intros w1 credential.
  assert (carries (VStr "CRED-9123450") credential) as Hc
    by (eexists; split; reflexivity).
  split; [exact Hc|].
  exact (proj1 (insert_cred_then_issue Reference.runtime None None None
                  credential Reference.started Hc)).
Defined.

(** [insert-cred.js] does what [insert-cred.cjs] does without arguments and
    without WORKER in the environment; an empty argument or an empty WORKER
    counts as none. *)
Theorem insert_cred_defaults rt (w : World) :
  insert_cred_js rt w = insert_cred_cjs rt None None None w
  ∧ insert_cred_cjs rt (Some EmptyString) (Some EmptyString) (Some EmptyString) w
    = insert_cred_cjs rt None None None w
  ∧ ∀ argv2 argv3 env_WORKER,
      credentials (insert_cred_cjs rt argv2 argv3 env_WORKER w) !! EmptyString
      = credentials w !! EmptyString.
Proof.
  split; [done|]. split; [done|]. intros argv2 argv3 env_WORKER.
  destruct (insert_cred_cjs_spec rt argv2 argv3 env_WORKER w) as (-> & _).
  apply lookup_insert_ne. unfold or_else. destruct argv2 as [s|]; [|done].
  destruct (String.eqb s EmptyString) eqn:E; [done|].
  apply String.eqb_neq in E. congruence.
Qed.

(** ** A verification while the credential is being issued *)

Lemma verify_step_clock rt t w :
  clock_reads (verify_step rt t w).1 = clock_reads w.
Proof.
  destruct t as [credential|credentialId|res]; simpl; [| |done].
  - destruct (decide (accepted credential)) as [Hacc|Hrej].
    + rewrite (verify_begin_accepted _ _ Hacc). by destruct (truthy _).
    + unfold try_catch, verify_begin. by rewrite (guard_rejected _ Hrej).
  - destruct (verify_lookup_spec rt credentialId w) as (w' & Hrun & _ & _ & _ & Hk).
    by rewrite Hrun.
Qed.

Lemma visibility_issue_step rt v props clock w ti tv :
  truthy v = true → assoc "id" props = Some v →
  visibility_invariant rt v props clock w ti tv →
  visibility_invariant rt v props clock (issue_step rt ti w).1 (issue_step rt ti w).2 tv.
Proof.
  intros Hv Hid [Hi Hver]. split; [|done]. clear Hver.
  unfold credential_record in *.
  destruct ti as [credential|credentialId doc|credentialId record|res]; simpl in *.
  - destruct Hi as (-> & Hrow & Hk).
    destruct (issue_begin_accepted rt (VObj props) w I)
      as (w' & Hrun & Hc & _ & _ & Hk' & _).
    rewrite Hrun, (resolved_id_supplied rt props v w Hid Hv). simpl.
    rewrite Hc, Hk'. by repeat split.
  - destruct Hi as (-> & -> & Hrow & Hk).
    destruct (issue_check_spec rt v (VObj (assign "id" v props)) w)
      as (w' & Hrun & Hc & _).
    rewrite Hrun, Hrow. simpl. rewrite Hc, Hk. by repeat split.
  - destruct Hi as (-> & -> & Hrow).
    match goal with |- context [issue_store rt v ?r] =>
      destruct (issue_store_spec rt v r w) as (w' & Hrun & Hc & _)
    end.
    rewrite Hrun, Hrow. simpl. rewrite Hc, Hrow. apply lookup_insert_eq.
  - done.
Qed.

Lemma visibility_verify_step rt v props clock w ti tv :
  truthy v = true →
  printable rt v →
  JSON_parse rt (JSON_stringify rt
                   (credential_record rt (VObj (assign "id" v props))
                      (toISOString rt clock)))
  = Some (credential_record rt (VObj (assign "id" v props)) (toISOString rt clock)) →
  visibility_invariant rt v props clock w ti tv →
  visibility_invariant rt v props clock (verify_step rt tv w).1 ti (verify_step rt tv w).2.
Proof.
  intros Hv [text Htext] Hcodec [Hi Hver].
  pose proof (verify_step_rows rt tv w) as Hc.
  pose proof (verify_step_clock rt tv w) as Hk.
  split.
  - destruct (verify_step rt tv w) as [w' tv']. simpl in Hc, Hk |- *.
    rewrite Hc, Hk. exact Hi.
  - clear Hc Hk.
    destruct tv as [credential|credentialId|res]; simpl in *.
    + destruct (supplied_id_carries v credential Hver) as [Hacc Hsup].
      rewrite (verify_begin_accepted _ _ Hacc), Hsup, Hv. done.
    + subst credentialId.
      destruct (verify_lookup_spec rt v w) as (w' & Hrun & _).
      rewrite Hrun, (logged_printable _ _ _ _ Htext). simpl.
      assert (credentials w !! sql_id rt v = None
              ∨ credentials w !! sql_id rt v
                = Some (JSON_stringify rt
                          (credential_record rt (VObj (assign "id" v props))
                             (toISOString rt clock)))) as [Hrow|Hrow].
      { destruct ti; simpl in Hi; [left|left|left|right]; tauto. }
      * rewrite Hrow. by left.
      * rewrite Hrow. simpl. rewrite Hcodec. by right.
    + done.
Qed.

Lemma visibility_serve rt v props clock schedule w ti tv res :
  truthy v = true → printable rt v → assoc "id" props = Some v →
  JSON_parse rt (JSON_stringify rt
                   (credential_record rt (VObj (assign "id" v props))
                      (toISOString rt clock)))
  = Some (credential_record rt (VObj (assign "id" v props)) (toISOString rt clock)) →
  visibility_invariant rt v props clock w ti tv →
  (serve rt schedule w [Issuing ti; Verifying tv]).2 !! 1
  = Some (Verifying (VerifyResponded res)) →
  res = not_found_response
  ∨ res = valid_response (VStr (WORKER_ID rt)) (VStr (toISOString rt clock))
            (VObj (assign "id" v props)).
Proof.
  intros Hv Hp Hid Hcodec. revert w ti tv.
  induction schedule as [|i rest IH]; intros w ti tv Hinv; simpl.
  { intros [= ->]. by destruct Hinv as [_ Hver]. }
  destruct i as [|[|i]]; simpl.
  - pose proof (visibility_issue_step rt v props clock w ti tv Hv Hid Hinv) as Hstep.
    destruct (issue_step rt ti w) as [w' ti']. by apply IH.
  - pose proof (visibility_verify_step rt v props clock w ti tv Hv Hp Hcodec Hinv)
      as Hstep.
    destruct (verify_step rt tv w) as [w' tv']. by apply IH.
  - by apply IH.
Qed.

(** A verification never sees half an issuance: while a credential is being
    issued under an id without a row (an id that converts to a string), a
    verification of that id, resumed at any points in between, is answered
    either by the 404 "Credential not found" or by the 200 with the complete
    record (worker, the timestamp stored, the payload with its id), provided
    [JSON.parse] reads the record back. *)
Theorem verify_during_issue rt (v : value) (props : list (string * value))
    (query : value) (w : World) (schedule : list nat) (res : Response) :
  let doc := VObj (assign "id" v props) in
  let timestamp := toISOString rt (clock_reads w) in
  let record :=
    VObj [("credential", doc);
          ("worker", VStr (WORKER_ID rt));
          ("timestamp", VStr timestamp)] in
  truthy v = true →
  printable rt v →
  assoc "id" props = Some v →
  carries v query →
  credentials w !! sql_id rt v = None →
  JSON_parse rt (JSON_stringify rt record) = Some record →
  (serve rt schedule w
     [Issuing (IssueReceived (VObj props)); Verifying (VerifyReceived query)]).2 !! 1
  = Some (Verifying (VerifyResponded res)) →
  res = {| status := 404;
           body := VObj [("status", VStr "invalid");
                         ("message", VStr "Credential not found")] |}
  ∨ res = {| status := 200;
             body := VObj [("status", VStr "valid");
                           ("worker", VStr (WORKER_ID rt));
                           ("timestamp", VStr timestamp);
                           ("credential", doc)] |}.
Proof.
  intros doc timestamp record Hv Hp Hid Hq Hrow Hcodec.
  by apply (visibility_serve rt v props (clock_reads w)).
Qed.

(** The theorem at work: the verification looks the id up right after the
    INSERT of the issuance, before the issuance has responded. *)
Lemma verify_during_issue_witness :
  let props := [("id", VStr "X"); ("name", VStr "Jane")] in
  let query := VObj [("id", VStr "X")] in
  let doc := VObj (assign "id" (VStr "X") props) in
  let timestamp := toISOString Reference.runtime (clock_reads Reference.started) in
  let record :=
    VObj [("credential", doc);
          ("worker", VStr (WORKER_ID Reference.runtime));
          ("timestamp", VStr timestamp)] in
  let res :=
    {| status := 200;
       body := VObj [("status", VStr "valid");
                     ("worker", VStr "worker-1");
                     ("timestamp", VStr "2025-10-07T08:10:11.0Z");
                     ("credential", doc)] |} in
  truthy (VStr "X") = true
  ∧ printable Reference.runtime (VStr "X")
  ∧ assoc "id" props = Some (VStr "X")
  ∧ carries (VStr "X") query
  ∧ credentials Reference.started !! sql_id Reference.runtime (VStr "X") = None
  ∧ JSON_parse Reference.runtime (JSON_stringify Reference.runtime record)
    = Some record
  ∧ (serve Reference.runtime [0; 1; 0; 0; 1] Reference.started
       [Issuing (IssueReceived (VObj props)); Verifying (VerifyReceived query)]).2 !! 1
    = Some (Verifying (VerifyResponded res))
  ∧ (res = {| status := 404;
              body := VObj [("status", VStr "invalid");
                            ("message", VStr "Credential not found")] |}
     ∨ res = {| status := 200;
                body := VObj [("status", VStr "valid");
                              ("worker", VStr (WORKER_ID Reference.runtime));
                              ("timestamp", VStr timestamp);
                              ("credential", doc)] |}).
Proof.
  intros props query doc timestamp record res.
  assert (truthy (VStr "X") = true) as Hv by reflexivity.
  assert (printable Reference.runtime (VStr "X")) as Hp
    by (exists "X"; reflexivity).
  assert (assoc "id" props = Some (VStr "X")) as Hid by reflexivity.
  assert (carries (VStr "X") query) as Hq by (eexists; split; reflexivity).
  assert (credentials Reference.started !! sql_id Reference.runtime (VStr "X")
          = None) as Hrow by reflexivity.
  assert (JSON_parse Reference.runtime (JSON_stringify Reference.runtime record)
          = Some record) as Hcodec by (vm_compute; reflexivity).
  assert ((serve Reference.runtime [0; 1; 0; 0; 1] Reference.started
             [Issuing (IssueReceived (VObj props));
              Verifying (VerifyReceived query)]).2 !! 1
          = Some (Verifying (VerifyResponded res))) as Hrun
    by (vm_compute; reflexivity).
  repeat (split; [assumption|]).
  exact (verify_during_issue Reference.runtime (VStr "X") props query
           Reference.started [0; 1; 0; 0; 1] res
           Hv Hp Hid Hq Hrow Hcodec Hrun).
Defined.

(** ** The 500 of the [catch] blocks *)




